(** * Weather dashboard: a shallow embedding of [src/app/page.tsx]

    The page is one React component, [Home].  Its twelve [useState] cells
    become the record [State]; every handler is a function of the state
    it closed over at render time (its [render] argument) and yields a
    small program of setter calls and network requests, [Async].  The
    programs are run either to completion against a fixed network
    ([run]) or piecewise, interleaved with other events ([step]). *)

From Stdlib Require Import String Ascii List Bool Arith Lia.
From Stdlib Require Import Floats.PrimFloat.
From ExtLib Require Import Structures.Monad Structures.MonadExc.
Import ListNotations MonadNotation.
Local Open Scope string_scope.
Local Open Scope list_scope.
Local Open Scope monad_scope.

Set Implicit Arguments.

(** ** JavaScript helpers *)

(** [Array.prototype.includes] on an array of strings. *)
Definition includes (l : list string) (x : string) : bool :=
  existsb (String.eqb x) l.

(** [Array.prototype.slice] with two non-negative indices. *)
Definition slice {A} (l : list A) (start stop : nat) : list A :=
  firstn (stop - start) (skipn start l).

(** [Array.prototype.filter] with a callback that also reads the index. *)
Fixpoint filter_from {A} (p : A -> nat -> bool) (index : nat) (l : list A) : list A :=
  match l with
  | [] => []
  | x :: l' =>
      if p x index then x :: filter_from p (S index) l'
      else filter_from p (S index) l'
  end.

Definition filter_index {A} (p : A -> nat -> bool) (l : list A) : list A :=
  filter_from p 0 l.

(** [String.prototype.includes]. *)
Definition str_includes (s sub : string) : bool :=
  match String.index 0 sub s with
  | Some _ => true
  | None => false
  end.

(** Truthiness of a string, and of a value that may be [undefined] or
    [null]: the empty string is falsy. *)
Definition truthy_string (s : string) : bool :=
  negb (String.eqb s "").

Definition truthy (v : option string) : bool :=
  match v with
  | Some s => truthy_string s
  | None => false
  end.

(** ** Type definitions (lines 22-56)

    A JavaScript [number] is an IEEE 754 double. *)

Module WeatherData.
Record Main := {
  temp : float;
  feels_like : float;
  temp_max : float;
  temp_min : float;
  humidity : float }.
Record Wind := { speed : float }.
(** An entry of the [weather] array; [label] is its [main] field. *)
Record Condition := { label : string }.
(** [rain] and [snow]; [last_hour] is the field ["1h"]. *)
Record Volume := { last_hour : float }.
Record t := {
  name : string;
  main : Main;
  wind : Wind;
  weather : list Condition;
  rain : option Volume;
  snow : option Volume }.
End WeatherData.

Module ForecastData.
Record Main := { temp : float }.
Record t := { dt : float; main : Main }.
End ForecastData.

Module ChartData.
Record t := { date : string; temp : float }.
End ChartData.

(** The value held by [lastAction]. *)
Record Action := { type : string; value : string }.

(** ** Component state (lines 60-71) *)

Record State := {
  location : string;
  weather : option WeatherData.t;
  forecast : list ForecastData.t;
  units : string;
  theme : string;
  loading : bool;
  error : option string;
  recentLocations : list string;
  favorites : list string;
  showFeatureInfo : bool;
  lastAction : option Action;
  showDetails : bool }.

(** The arguments of the [useState] calls. *)
Definition initial : State := {|
  location := "";
  weather := None;
  forecast := [];
  units := "metric";
  theme := "light";
  loading := false;
  error := None;
  recentLocations := [];
  favorites := [];
  showFeatureInfo := true;
  lastAction := None;
  showDetails := false |}.

(** A call of one of the twelve setters with a plain value. *)
Inductive SetState :=
| setLocation (v : string)
| setWeather (v : option WeatherData.t)
| setForecast (v : list ForecastData.t)
| setUnits (v : string)
| setTheme (v : string)
| setLoading (v : bool)
| setError (v : option string)
| setRecentLocations (v : list string)
| setFavorites (v : list string)
| setShowFeatureInfo (v : bool)
| setLastAction (v : option Action)
| setShowDetails (v : bool).

Definition update (u : SetState) (s : State) : State :=
  let '(Build_State lo we fo un th ld er re fa sh la de) := s in
  match u with
  | setLocation v => Build_State v we fo un th ld er re fa sh la de
  | setWeather v => Build_State lo v fo un th ld er re fa sh la de
  | setForecast v => Build_State lo we v un th ld er re fa sh la de
  | setUnits v => Build_State lo we fo v th ld er re fa sh la de
  | setTheme v => Build_State lo we fo un v ld er re fa sh la de
  | setLoading v => Build_State lo we fo un th v er re fa sh la de
  | setError v => Build_State lo we fo un th ld v re fa sh la de
  | setRecentLocations v => Build_State lo we fo un th ld er v fa sh la de
  | setFavorites v => Build_State lo we fo un th ld er re v sh la de
  | setShowFeatureInfo v => Build_State lo we fo un th ld er re fa v la de
  | setLastAction v => Build_State lo we fo un th ld er re fa sh v de
  | setShowDetails v => Build_State lo we fo un th ld er re fa sh la v
  end.

(** ** Asynchronous programs

    What a handler does, as a tree: setter calls, and requests to the
    weather provider whose continuation receives the settled promise.
    [await] points at which nothing outside the program is consulted
    (the body of a response is carried by the response) are not nodes. *)

(** A thrown value: an [Error] with its message, or anything for which
    [err instanceof Error] is false. *)
Inductive Thrown :=
| Error (message : string)
| NotAnError.

Inductive Settled (A : Type) : Type :=
| Fulfilled (a : A)
| Rejected (reason : Thrown).
Arguments Rejected {A} reason.

(** A [Response]: its [ok] flag, and what [json()] settles to. *)
Record Response (A : Type) : Type := { ok : bool; json : Settled A }.

(** The two endpoints under [API_BASE], and the shape their JSON bodies
    are read at. *)
Inductive Endpoint := WeatherEndpoint | ForecastEndpoint.

Record ForecastJson := { list_ : list ForecastData.t }.

Definition Body (ep : Endpoint) : Type :=
  match ep with
  | WeatherEndpoint => WeatherData.t
  | ForecastEndpoint => ForecastJson
  end.

Inductive Async (A : Type) : Type :=
| Return (a : A)
| Throw (e : Thrown)
| Call (u : SetState) (k : Async A)
| Fetch (ep : Endpoint) (url : string) (k : Settled (Response (Body ep)) -> Async A).
Arguments Throw {A} e.

Fixpoint bind_async {A B} (m : Async A) (f : A -> Async B) : Async B :=
  match m with
  | Return a => f a
  | Throw e => Throw e
  | Call u k => Call u (bind_async k f)
  | Fetch ep url k => Fetch ep url (fun r => bind_async (k r) f)
  end.

(** [try { body } catch (err) { handler err }] *)
Fixpoint try_catch {A} (body : Async A) (handler : Thrown -> Async A) : Async A :=
  match body with
  | Return a => Return a
  | Throw e => handler e
  | Call u k => Call u (try_catch k handler)
  | Fetch ep url k => Fetch ep url (fun r => try_catch (k r) handler)
  end.

(** [try { body } finally { fin }] *)
Fixpoint try_finally {A} (body : Async A) (fin : Async unit) : Async A :=
  match body with
  | Return a => bind_async fin (fun _ => Return a)
  | Throw e => bind_async fin (fun _ => Throw e)
  | Call u k => Call u (try_finally k fin)
  | Fetch ep url k => Fetch ep url (fun r => try_finally (k r) fin)
  end.

#[global] Instance Monad_Async : Monad Async :=
  {| ret := @Return; bind := @bind_async |}.

#[global] Instance MonadExc_Async : MonadExc Thrown Async :=
  {| raise := @Throw; catch := @try_catch |}.

Definition call (u : SetState) : Async unit := Call u (Return tt).

(** [await fetch(url)] *)
Definition fetch (ep : Endpoint) (url : string) : Async (Response (Body ep)) :=
  Fetch ep url (fun r =>
    match r with
    | Fulfilled resp => Return resp
    | Rejected e => Throw e
    end).

(** [await p] for a promise that has already settled. *)
Definition await {A} (p : Settled A) : Async A :=
  match p with
  | Fulfilled a => Return a
  | Rejected e => Throw e
  end.

(** *** Running a program *)

(** The weather provider, for a run in which every request is answered:
    what each URL settles to. *)
Definition Network := forall ep : Endpoint, string -> Settled (Response (Body ep)).

Record Outcome (A : Type) : Type := {
  final : State;
  requests : list string;
  result : Settled A }.

(** Runs [p] from [s] to its end, answering each request from [net]. *)
Fixpoint run {A} (net : Network) (p : Async A) (s : State) : Outcome A :=
  match p with
  | Return a => {| final := s; requests := []; result := Fulfilled a |}
  | Throw e => {| final := s; requests := []; result := Rejected e |}
  | Call u k => run net k (update u s)
  | Fetch ep url k =>
      let o := run net (k (net ep url)) s in
      {| final := final o; requests := url :: requests o; result := result o |}
  end.

(** Runs [p] from [s] up to its first request (or its end): the part of a
    handler that executes before control returns to the event loop. *)
Fixpoint advance {A} (p : Async A) (s : State) : State * Async A :=
  match p with
  | Call u k => advance k (update u s)
  | _ => (s, p)
  end.

(** ** The component [Home] *)

Section Home.

(** [process.env.NEXT_PUBLIC_OPENWEATHER_API_KEY]; [None] is [undefined]. *)
Variable API_KEY : option string.

Definition API_BASE : string := "https://api.openweathermap.org/data/2.5".

(** [`${API_KEY}`] *)
Definition API_KEY_text : string :=
  match API_KEY with
  | Some k => k
  | None => "undefined"
  end.

Definition weather_url (searchLocation units : string) : string :=
  (API_BASE ++ "/weather?q=" ++ searchLocation ++ "&units=" ++ units
     ++ "&appid=" ++ API_KEY_text)%string.

Definition forecast_url (searchLocation units : string) : string :=
  (API_BASE ++ "/forecast?q=" ++ searchLocation ++ "&units=" ++ units
     ++ "&appid=" ++ API_KEY_text)%string.

Definition unavailable_message : string :=
  "Weather data is temporarily unavailable. Please check back later.".

Definition not_found_message : string :=
  "Location not found. Please check the spelling and try again.".

Definition forecast_message : string := "Forecast data unavailable".

Arguments weather_url : simpl never.
Arguments forecast_url : simpl never.

(** [err instanceof Error ? err.message : "An unknown error occurred"] *)
Definition message_of (err : Thrown) : string :=
  match err with
  | Error message => message
  | NotAnError => "An unknown error occurred"
  end.

(** Lines 138-177.  [units] and [recentLocations] are read from the
    closure, before and after the requests alike. *)
Definition fetchWeather (render : State) (searchLocation : string) : Async unit :=
  if negb (truthy API_KEY) then
    call (setError (Some unavailable_message))
  else
    call (setLoading true) ;;
    call (setError None) ;;
    try_finally
      (try_catch
         (weatherResponse <- fetch WeatherEndpoint (weather_url searchLocation (units render)) ;;
          if negb (ok weatherResponse) then raise (Error not_found_message)
          else
            weatherData <- await (json weatherResponse) ;;
            forecastResponse <- fetch ForecastEndpoint (forecast_url searchLocation (units render)) ;;
            if negb (ok forecastResponse) then raise (Error forecast_message)
            else
              forecastData <- await (json forecastResponse) ;;
              call (setWeather (Some weatherData)) ;;
              call (setForecast (list_ forecastData)) ;;
              if negb (includes (recentLocations render) searchLocation) then
                let updatedLocations := slice (searchLocation :: recentLocations render) 0 5 in
                call (setRecentLocations updatedLocations)
              else ret tt)
         (fun err => call (setError (Some (message_of err)))))
      (call (setLoading false)).

(** Lines 186-196. *)
Definition toggleFavorite (render : State) (loc : string) : Async unit :=
  try_catch
    (if includes (favorites render) loc then
       call (setFavorites (filter (fun f => negb (String.eqb f loc)) (favorites render)))
     else
       call (setFavorites (favorites render ++ [loc])))
    (fun _ => ret tt).

(** Lines 198-202. *)
Definition toggleUnits (render : State) : Async unit :=
  let oldUnit := units render in
  call (setUnits (if String.eqb (units render) "metric" then "imperial" else "metric")) ;;
  call (setLastAction (Some {| type := "units"; value := oldUnit |})).

(** Lines 204-209.  [lastAction?.type] is [undefined] when there is no
    action. *)
Definition undoLastAction (render : State) : Async unit :=
  match lastAction render with
  | Some a =>
      if String.eqb (type a) "units" then
        call (setUnits (value a)) ;;
        call (setLastAction None)
      else ret tt
  | None => ret tt
  end.

(** The inline handlers of lines 278, 317 and 401, and the state half of
    [dismissFeatureInfo] (line 248). *)
Definition toggleTheme (render : State) : Async unit :=
  call (setTheme (if String.eqb (theme render) "light" then "dark" else "light")).

Definition changeLocation (text : string) : Async unit :=
  call (setLocation text).

Definition toggleDetails (render : State) : Async unit :=
  call (setShowDetails (negb (showDetails render))).

Definition dismissFeatureInfo : Async unit :=
  call (setShowFeatureInfo false).

(** *** What is rendered *)

(** Line 297: the undo button is there when [lastAction] is not null. *)
Definition undoControl (s : State) : bool :=
  match lastAction s with
  | Some _ => true
  | None => false
  end.


(** Line 495: [error && error.includes("API key")] guards the notice
    "Please configure your API key to access weather data". *)
Definition footerNotice (s : State) : bool :=
  match error s with
  | Some e => truthy_string e && str_includes e "API key"
  | None => false
  end.

Section Chart.

(** [ms => new Date(ms).toLocaleDateString()], which depends on the
    locale and time zone of the browser. *)
Variable toLocaleDateString : float -> string.

(** The callback of [map] at lines 220-223. *)
Definition chart_point (item : ForecastData.t) : ChartData.t :=
  {| ChartData.date := toLocaleDateString (ForecastData.dt item * 1000)%float;
     ChartData.temp := ForecastData.temp (ForecastData.main item) |}.

(** Lines 218-223. *)
Definition chartData (forecast : list ForecastData.t) : list ChartData.t :=
  map chart_point
    (filter_index (fun _ index => Nat.eqb (index mod 8) 0) forecast).

(** Lines 215-245: nothing for an empty forecast, otherwise the line
    chart, given here by the data it plots. *)
Definition renderForecastChart (s : State) : option (list ChartData.t) :=
  if Nat.eqb (length (forecast s)) 0 then None
  else Some (chartData (forecast s)).

End Chart.

End Home.

(** ** Preferences in [localStorage]

    The five keys the page uses.  The values under ["weatherFavorites"]
    and ["recentLocations"] are JSON texts of arrays of strings, written
    by [JSON.stringify] and read back by [JSON.parse]; the store holds
    the array such a text denotes.  [None] is an absent key. *)

Module LocalStorage.

Record t := {
  weatherUnits : option string;
  weatherTheme : option string;
  weatherFavorites : option (list string);
  recentLocations : option (list string);
  hasSeenFeatureInfo : option string }.

Definition empty : t := {|
  weatherUnits := None;
  weatherTheme := None;
  weatherFavorites := None;
  recentLocations := None;
  hasSeenFeatureInfo := None |}.

(** A call of [localStorage.setItem], by its key. *)
Inductive SetItem :=
| setWeatherUnits (v : string)
| setWeatherTheme (v : string)
| setWeatherFavorites (v : list string)
| setRecentLocations (v : list string)
| setHasSeenFeatureInfo (v : string).

Definition setItem (w : SetItem) (st : t) : t :=
  let '(Build_t un th fa re se) := st in
  match w with
  | setWeatherUnits v => Build_t (Some v) th fa re se
  | setWeatherTheme v => Build_t un (Some v) fa re se
  | setWeatherFavorites v => Build_t un th (Some v) re se
  | setRecentLocations v => Build_t un th fa (Some v) se
  | setHasSeenFeatureInfo v => Build_t un th fa re (Some v)
  end.

(** A [try] block of [setItem] calls of which only the first [completed]
    go through before one throws (storage unavailable, quota exceeded);
    the [catch] logs and carries on. *)
Definition write (completed : nat) (ws : list SetItem) (st : t) : t :=
  fold_left (fun st w => setItem w st) (firstn completed ws) st.

End LocalStorage.

(** [if (saved) setX(saved)] for a string read with [getItem]. *)
Definition when_truthy (saved : option string) (f : string -> Async unit) : Async unit :=
  match saved with
  | Some v => if truthy_string v then f v else ret tt
  | None => ret tt
  end.

(** [JSON.parse(localStorage.getItem(key) || "[]")] *)
Definition parse_or_empty (saved : option (list string)) : list string :=
  match saved with
  | Some l => l
  | None => []
  end.

(** The effect of lines 87-103; an array is always truthy. *)
Definition loadPreferences (st : LocalStorage.t) : Async unit :=
  let savedUnits := LocalStorage.weatherUnits st in
  let savedTheme := LocalStorage.weatherTheme st in
  let savedFavorites := parse_or_empty (LocalStorage.weatherFavorites st) in
  let savedLocations := parse_or_empty (LocalStorage.recentLocations st) in
  let hasSeenFeatureInfo := LocalStorage.hasSeenFeatureInfo st in
  when_truthy savedUnits (fun v => call (setUnits v)) ;;
  when_truthy savedTheme (fun v => call (setTheme v)) ;;
  call (setFavorites savedFavorites) ;;
  call (setRecentLocations savedLocations) ;;
  when_truthy hasSeenFeatureInfo (fun _ => call (setShowFeatureInfo false)).

(** The effect of lines 106-115, run with the state of a render. *)
Definition savePreferences (completed : nat) (render : State) : LocalStorage.t -> LocalStorage.t :=
  LocalStorage.write completed
    [ LocalStorage.setWeatherUnits (units render);
      LocalStorage.setWeatherTheme (theme render);
      LocalStorage.setWeatherFavorites (favorites render);
      LocalStorage.setRecentLocations (recentLocations render) ].

(** The storage half of [dismissFeatureInfo] (lines 249-253). *)
Definition rememberFeatureInfo (completed : nat) : LocalStorage.t -> LocalStorage.t :=
  LocalStorage.write completed [ LocalStorage.setHasSeenFeatureInfo "true" ].

(** ** The page over time

    A page holds the state last rendered, the store, and the calls of
    [fetchWeather] that are waiting for a response.  Nothing stops a
    second call from starting while one is waiting: the chips of lines
    342 and 481 are not disabled while loading. *)

Record System := {
  view : State;
  storage : LocalStorage.t;
  inflight : list (Async unit) }.

(** A program that stopped at a request waits; one that ended is gone. *)
Definition park (p : Async unit) (waiting : list (Async unit)) : list (Async unit) :=
  match p with
  | Fetch _ _ _ => p :: waiting
  | _ => waiting
  end.

(** What the user can do: call [fetchWeather] (by submitting the form or
    by a chip), and the other controls.  The handlers are taken with any
    argument, which covers the calls the page makes. *)
Inductive Event :=
| Search (searchLocation : string)
| ToggleFavorite (loc : string)
| ToggleUnits
| UndoLastAction
| ToggleTheme
| DismissFeatureInfo
| ToggleDetails
| ChangeLocation (text : string).

Section Session.

Variable API_KEY : option string.

Definition handler (ev : Event) (render : State) : Async unit :=
  match ev with
  | Search searchLocation => fetchWeather API_KEY render searchLocation
  | ToggleFavorite loc => toggleFavorite render loc
  | ToggleUnits => toggleUnits render
  | UndoLastAction => undoLastAction render
  | ToggleTheme => toggleTheme render
  | DismissFeatureInfo => dismissFeatureInfo
  | ToggleDetails => toggleDetails render
  | ChangeLocation text => changeLocation text
  end.

Definition handler_storage (ev : Event) (completed : nat) : LocalStorage.t -> LocalStorage.t :=
  match ev with
  | DismissFeatureInfo => rememberFeatureInfo completed
  | _ => fun st => st
  end.

(** Mounting the component: the first render shows [initial]; the load
    effect reads the store and queues its setters, the save effect
    writes the first render's values, and after the second render the
    save effect writes again. *)
Definition page_load (first second : nat) (st : LocalStorage.t) : System :=
  let loaded := fst (advance (loadPreferences st) initial) in
  {| view := loaded;
     storage := savePreferences second loaded (savePreferences first initial st);
     inflight := [] |}.

Inductive step : System -> System -> Prop :=
| step_event (sys : System) (ev : Event) (stored saved : nat) (s' : State) (p' : Async unit) :
    advance (handler ev (view sys)) (view sys) = (s', p') ->
    step sys
      {| view := s';
         storage := savePreferences saved s' (handler_storage ev stored (storage sys));
         inflight := park p' (inflight sys) |}
| step_response (sys : System) (before after : list (Async unit))
    (ep : Endpoint) (url : string) (k : Settled (Response (Body ep)) -> Async unit)
    (r : Settled (Response (Body ep))) (saved : nat) (s' : State) (p' : Async unit) :
    inflight sys = before ++ Fetch ep url k :: after ->
    advance (k r) (view sys) = (s', p') ->
    step sys
      {| view := s';
         storage := savePreferences saved s' (storage sys);
         inflight := before ++ park p' after |}
| step_reload (sys : System) (first second : nat) :
    step sys (page_load first second (storage sys)).

(** The states a browser that first opens the page with an empty store
    can come to. *)
Inductive Reachable : System -> Prop :=
| reach_first_visit (first second : nat) :
    Reachable (page_load first second LocalStorage.empty)
| reach_step (a b : System) :
    Reachable a -> step a b -> Reachable b.

(** Two ways to drive the page, with every write to the store going
    through: the user starts a search, and the provider answers the call
    at the head of the waiting list (the one that moved last). *)
Definition submit (sys : System) (searchLocation : string) : System :=
  let (s', p') := advance (handler (Search searchLocation) (view sys)) (view sys) in
  {| view := s';
     storage := savePreferences 4 s' (storage sys);
     inflight := park p' (inflight sys) |}.

Definition answer (net : Network) (sys : System) : System :=
  match inflight sys with
  | Fetch ep url k :: waiting =>
      let (s', p') := advance (k (net ep url)) (view sys) in
      {| view := s';
         storage := savePreferences 4 s' (storage sys);
         inflight := park p' waiting |}
  | _ => sys
  end.

End Session.

(** ** Invariants of the two lists *)

Definition recents_ok (l : list string) : Prop :=
  length l <= 5 /\ NoDup l.

Definition Inv (s : State) : Prop :=
  length (recentLocations s) <= 5 /\
  NoDup (recentLocations s) /\
  NoDup (favorites s).

Definition set_ok (u : SetState) : Prop :=
  match u with
  | setRecentLocations v => recents_ok v
  | setFavorites v => NoDup v
  | _ => True
  end.

(** Every setter call the program can still make keeps [Inv]. *)
Fixpoint Safe {A} (p : Async A) : Prop :=
  match p with
  | Return _ => True
  | Throw _ => True
  | Call u k => set_ok u /\ Safe k
  | Fetch ep url k => forall r, Safe (k r)
  end.

Definition stored_ok (st : LocalStorage.t) : Prop :=
  recents_ok (parse_or_empty (LocalStorage.recentLocations st)) /\
  NoDup (parse_or_empty (LocalStorage.weatherFavorites st)).

(** A write that keeps the stored lists well formed. *)
Definition item_ok (w : LocalStorage.SetItem) : Prop :=
  match w with
  | LocalStorage.setWeatherFavorites v => NoDup v
  | LocalStorage.setRecentLocations v => recents_ok v
  | _ => True
  end.

Definition SysInv (sys : System) : Prop :=
  Inv (view sys) /\ stored_ok (storage sys) /\ Forall Safe (inflight sys).

(** Runs a handler that makes no request: the state it leaves. *)
Definition perform (p : Async unit) (s : State) : State :=
  fst (advance p s).

(** ** The rest of the page *)

Section Submit.

Variable API_KEY : option string.

(** [String.prototype.trim]. *)
Variable trim : string -> string.

(** Lines 179-184 ([preventDefault] only stops the browser from leaving
    the page).  The search is made with [location] itself. *)
Definition handleSearch (render : State) : Async unit :=
  if truthy_string (trim (location render)) then
    fetchWeather API_KEY render (location render)
  else ret tt.

End Submit.

(** Line 355: the error banner is rendered for a truthy [error]. *)
Definition errorBanner (s : State) : bool := truthy (error s).

(** Lines 347 and 374-376: the star beside a recent location, and the
    filled star and "Remove from favorites" title on the weather card. *)
Definition starMarker (s : State) (loc : string) : bool :=
  includes (favorites s) loc.

(** Lines 335 and 474: the two chip sections are rendered for non-empty
    lists. *)
Definition recentSection (s : State) : bool :=
  negb (Nat.eqb (length (recentLocations s)) 0).

Definition favoriteSection (s : State) : bool :=
  negb (Nat.eqb (length (favorites s)) 0).

(** ** Predicates on programs and pages *)

(** Every setter call the program can still make satisfies [P]. *)
Fixpoint AllCalls {A} (P : SetState -> Prop) (p : Async A) : Prop :=
  match p with
  | Return _ => True
  | Throw _ => True
  | Call u k => P u /\ AllCalls P k
  | Fetch ep url k => forall r, AllCalls P (k r)
  end.

(** The five setters [fetchWeather] calls. *)
Definition search_call (u : SetState) : Prop :=
  match u with
  | setLoading _ | setError _ | setWeather _ | setForecast _
  | setRecentLocations _ => True
  | _ => False
  end.

Definition unit_system (u : string) : Prop :=
  u = "metric" \/ u = "imperial".

Definition color_scheme (t : string) : Prop :=
  t = "light" \/ t = "dark".

Definition other_unit (u : string) : string :=
  if String.eqb u "metric" then "imperial" else "metric".

(** The unit and the theme are among the two values each, and the last
    action, when there is one, is a unit change away from the other
    unit. *)
Definition Prefs (s : State) : Prop :=
  unit_system (units s) /\
  color_scheme (theme s) /\
  match lastAction s with
  | Some a => type a = "units" /\ value a = other_unit (units s)
  | None => True
  end.

Definition stored_prefs (st : LocalStorage.t) : Prop :=
  match LocalStorage.weatherUnits st with
  | Some u => unit_system u
  | None => True
  end /\
  match LocalStorage.weatherTheme st with
  | Some t => color_scheme t
  | None => True
  end.

Definition PrefInv (sys : System) : Prop :=
  Prefs (view sys) /\
  stored_prefs (storage sys) /\
  Forall (AllCalls search_call) (inflight sys).



(** ** Sample data *)

Definition paris : WeatherData.t := {|
  WeatherData.name := "Paris";
  WeatherData.main := {|
    WeatherData.temp := 18.5;
    WeatherData.feels_like := 17.75;
    WeatherData.temp_max := 21;
    WeatherData.temp_min := 12.5;
    WeatherData.humidity := 63 |};
  WeatherData.wind := {| WeatherData.speed := 4.25 |};
  WeatherData.weather := [ {| WeatherData.label := "Clouds" |} ];
  WeatherData.rain := None;
  WeatherData.snow := None |}.

(** [n] forecast points three hours apart. *)
Fixpoint points (n : nat) (dt temp : float) : list ForecastData.t :=
  match n with
  | 0 => []
  | S n' =>
      {| ForecastData.dt := dt; ForecastData.main := {| ForecastData.temp := temp |} |}
        :: points n' (dt + 10800)%float (temp + 0.25)%float
  end.

Definition five_days : list ForecastData.t := points 40 1700000000 10.

(** A provider that answers every request with the same good data. *)
Definition sunny : Network := fun ep _ =>
  match ep with
  | WeatherEndpoint => Fulfilled {| ok := true; json := Fulfilled paris |}
  | ForecastEndpoint =>
      Fulfilled {| ok := true; json := Fulfilled {| list_ := five_days |} |}
  end.

(** A provider whose forecast endpoint answers with a failure status. *)
Definition no_forecast : Network := fun ep _ =>
  match ep with
  | WeatherEndpoint => Fulfilled {| ok := true; json := Fulfilled paris |}
  | ForecastEndpoint =>
      Fulfilled {| ok := false; json := Rejected (Error "Unexpected token") |}
  end.

(** A provider that turns every request down (status 401). *)
Definition unauthorized : Network := fun ep _ =>
  Fulfilled {| ok := false; json := Rejected (Error "Unexpected token") |}.

(** The first render, with given recent locations and favorites. *)
Definition listing (recent favs : list string) : State :=
  update (setFavorites favs) (update (setRecentLocations recent) initial).

(** A date label that only tells the first day from the rest. *)
Definition day_label (ms : float) : string :=
  if (ms <? 1700086400000)%float then "11/14/2023" else "later".

(** A first visit, and the page after the star of "Paris" is clicked. *)
Definition first_visit : System := page_load 4 4 LocalStorage.empty.

Definition starred : System :=
  let s' := perform (toggleFavorite (view first_visit) "Paris") (view first_visit) in
  {| view := s';
     storage := savePreferences 4 s' (storage first_visit);
     inflight := [] |}.

(** [trim] for texts whose only white space is the space character. *)
Fixpoint trim_start (s : string) : string :=
  match s with
  | String " " s' => trim_start s'
  | _ => s
  end.

Fixpoint reverse (s : string) : string :=
  match s with
  | EmptyString => EmptyString
  | String c s' => (reverse s' ++ String c EmptyString)%string
  end.

Definition trim_spaces (s : string) : string :=
  reverse (trim_start (reverse (trim_start s))).

(** A provider that cannot be reached. *)
Definition offline : Network := fun ep _ =>
  Rejected (Error "Failed to fetch").

(** A provider whose requests fail with a message about the key. *)
Definition complaining : Network := fun ep _ =>
  Rejected (Error "Invalid API key").

(** The page after the unit button of a first visit is clicked, and the
    page after its banner is dismissed. *)
Definition unit_toggled : System :=
  let s' := perform (toggleUnits (view first_visit)) (view first_visit) in
  {| view := s';
     storage := savePreferences 4 s' (storage first_visit);
     inflight := [] |}.


(** Nothing waits, nothing was fetched and nothing was listed. *)
Definition Idle (sys : System) : Prop :=
  inflight sys = [] /\
  weather (view sys) = None /\
  forecast (view sys) = [] /\
  recentLocations (view sys) = [] /\
  parse_or_empty (LocalStorage.recentLocations (storage sys)) = [].

(** What the load effect makes of a stored string, given the default. *)
Definition restored (saved : option string) (default : string) : string :=
  match saved with
  | Some v => if truthy_string v then v else default
  | None => default
  end.

Unset Implicit Arguments.

(** * Properties *)

(** ** Lists and strings *)

Lemma includes_true_iff (l : list string) (x : string) :
  includes l x = true <-> In x l.
Proof.
  unfold includes. rewrite existsb_exists. split.
  - intros [y [Hy Heq]]. apply String.eqb_eq in Heq. now subst.
  - intros H. exists x. split; [exact H | apply String.eqb_refl].
Qed.

Lemma includes_false_iff (l : list string) (x : string) :
  includes l x = false <-> ~ In x l.
Proof.
  rewrite <- includes_true_iff. destruct (includes l x); split; congruence.
Qed.

Lemma slice_0 (A : Type) (l : list A) (n : nat) :
  slice l 0 n = firstn n l.
Proof. unfold slice. now rewrite Nat.sub_0_r. Qed.

Lemma In_firstn (A : Type) (n : nat) (l : list A) (x : A) :
  In x (firstn n l) -> In x l.
Proof.
  revert l. induction n as [|n IH]; intros [|y l]; simpl; try tauto.
  intros [H | H]; [now left | right; now apply IH].
Qed.

Lemma NoDup_firstn (A : Type) (n : nat) (l : list A) :
  NoDup l -> NoDup (firstn n l).
Proof.
  revert l. induction n as [|n IH]; intros l H; simpl.
  - constructor.
  - destruct H as [|y l Hy Hl]; constructor.
    + intros Hin. apply Hy. eapply In_firstn; eassumption.
    + now apply IH.
Qed.

Lemma NoDup_snoc (A : Type) (l : list A) (x : A) :
  NoDup l -> ~ In x l -> NoDup (l ++ [x]).
Proof.
  intros Hl Hx. apply NoDup_app; [exact Hl | repeat constructor; simpl; tauto |].
  intros a Ha [<- | []]. contradiction.
Qed.

(** The list [fetchWeather] stores for a place that is not yet listed. *)
Lemma recents_ok_prepend (l : list string) (x : string) :
  NoDup l -> ~ In x l -> recents_ok (slice (x :: l) 0 5).
Proof.
  intros Hl Hx. rewrite slice_0. split.
  - apply firstn_le_length.
  - apply NoDup_firstn. now constructor.
Qed.

(** The two lists [toggleFavorite] can store. *)
Lemma NoDup_unstar (l : list string) (loc : string) :
  NoDup l -> NoDup (filter (fun f => negb (String.eqb f loc)) l).
Proof. apply NoDup_filter. Qed.

Lemma In_unstar (l : list string) (loc x : string) :
  In x (filter (fun f => negb (String.eqb f loc)) l) <-> In x l /\ x <> loc.
Proof.
  rewrite filter_In. destruct (String.eqb_spec x loc); simpl; intuition congruence.
Qed.

Lemma unstar_absent (l : list string) (loc : string) :
  ~ In loc l -> filter (fun f => negb (String.eqb f loc)) l = l.
Proof.
  induction l as [|y l IH]; simpl; intros H; [reflexivity |].
  destruct (String.eqb_spec y loc) as [-> | _]; simpl.
  - exfalso. apply H. now left.
  - f_equal. apply IH. tauto.
Qed.

(** ** Programs that keep the invariant *)

Lemma update_ok (u : SetState) (s : State) :
  set_ok u -> Inv s -> Inv (update u s).
Proof.
  unfold Inv. destruct s, u; simpl; unfold recents_ok; tauto.
Qed.

Lemma advance_ok (A : Type) (p : Async A) (s : State) :
  Safe p -> Inv s -> Inv (fst (advance p s)) /\ Safe (snd (advance p s)).
Proof.
  revert s. induction p as [a | e | u k IH | ep url k _]; simpl; intros s Hp Hs;
    try (split; assumption).
  destruct Hp as [Hu Hk]. apply IH; [exact Hk | now apply update_ok].
Qed.

Lemma run_ok (A : Type) (net : Network) (p : Async A) (s : State) :
  Safe p -> Inv s -> Inv (final (run net p s)).
Proof.
  revert s. induction p as [a | e | u k IH | ep url k IH]; simpl; intros s Hp Hs;
    try assumption.
  - destruct Hp as [Hu Hk]. apply IH; [exact Hk | now apply update_ok].
  - apply IH; [apply Hp | exact Hs].
Qed.

Lemma Safe_bind (A B : Type) (m : Async A) (f : A -> Async B) :
  Safe m -> (forall a, Safe (f a)) -> Safe (bind_async m f).
Proof.
  intros Hm Hf. induction m as [a | e | u k IH | ep url k IH]; simpl in *.
  - apply Hf.
  - exact I.
  - split; [tauto | apply IH; tauto].
  - intros r. apply IH, Hm.
Qed.

Lemma Safe_try_catch (A : Type) (body : Async A) (h : Thrown -> Async A) :
  Safe body -> (forall e, Safe (h e)) -> Safe (try_catch body h).
Proof.
  intros Hb Hh. induction body as [a | e | u k IH | ep url k IH]; simpl in *.
  - exact I.
  - apply Hh.
  - split; [tauto | apply IH; tauto].
  - intros r. apply IH, Hb.
Qed.

Lemma Safe_try_finally (A : Type) (body : Async A) (fin : Async unit) :
  Safe body -> Safe fin -> Safe (try_finally body fin).
Proof.
  intros Hb Hf. induction body as [a | e | u k IH | ep url k IH]; simpl in *.
  - apply Safe_bind; [exact Hf | intros; exact I].
  - apply Safe_bind; [exact Hf | intros; exact I].
  - split; [tauto | apply IH; tauto].
  - intros r. apply IH, Hb.
Qed.

Lemma Safe_call (u : SetState) : set_ok u -> Safe (call u).
Proof. intros H. simpl. tauto. Qed.

Lemma Safe_fetch (ep : Endpoint) (url : string) : Safe (fetch ep url).
Proof. intros [resp | e]; exact I. Qed.

Lemma Safe_await (A : Type) (p : Settled A) : Safe (await p).
Proof. destruct p; exact I. Qed.

Lemma Safe_when_truthy (saved : option string) (f : string -> Async unit) :
  (forall v, Safe (f v)) -> Safe (when_truthy saved f).
Proof.
  intros Hf. unfold when_truthy. destruct saved as [v|]; [|exact I].
  destruct (truthy_string v); [apply Hf | exact I].
Qed.

Lemma Safe_fetchWeather (API_KEY : option string) (render : State) (searchLocation : string) :
  Inv render -> Safe (fetchWeather API_KEY render searchLocation).
Proof.
  intros (_ & Hrecent & _). unfold fetchWeather.
  destruct (truthy API_KEY); simpl negb; cbv iota.
  2: { apply Safe_call. exact I. }
  apply Safe_bind; [apply Safe_call; exact I | intros _].
  apply Safe_bind; [apply Safe_call; exact I | intros _].
  apply Safe_try_finally; [| apply Safe_call; exact I].
  apply Safe_try_catch; [| intros e; apply Safe_call; exact I].
  apply Safe_bind; [apply Safe_fetch | intros weatherResponse].
  destruct weatherResponse as [[|] weatherJson]; simpl negb; cbv iota; [| exact I].
  apply Safe_bind; [apply Safe_await | intros weatherData].
  apply Safe_bind; [apply Safe_fetch | intros forecastResponse].
  destruct forecastResponse as [[|] forecastJson]; simpl negb; cbv iota; [| exact I].
  apply Safe_bind; [apply Safe_await | intros forecastData].
  apply Safe_bind; [apply Safe_call; exact I | intros _].
  apply Safe_bind; [apply Safe_call; exact I | intros _].
  destruct (includes (recentLocations render) searchLocation) eqn:Hin;
    simpl negb; cbv iota; [exact I |].
  apply Safe_call. apply recents_ok_prepend; [exact Hrecent |].
  now apply includes_false_iff.
Qed.

Lemma Safe_toggleFavorite (render : State) (loc : string) :
  Inv render -> Safe (toggleFavorite render loc).
Proof.
  intros (_ & _ & Hfav). unfold toggleFavorite.
  apply Safe_try_catch; [| intros; exact I].
  destruct (includes (favorites render) loc) eqn:Hin; apply Safe_call; simpl.
  - now apply NoDup_unstar.
  - apply NoDup_snoc; [exact Hfav | now apply includes_false_iff].
Qed.

Lemma Safe_handler (API_KEY : option string) (ev : Event) (render : State) :
  Inv render -> Safe (handler API_KEY ev render).
Proof.
  intros H. destruct ev; simpl.
  - now apply Safe_fetchWeather.
  - now apply Safe_toggleFavorite.
  - unfold toggleUnits. simpl. tauto.
  - unfold undoLastAction. destruct (lastAction render) as [a|]; [|exact I].
    destruct (String.eqb (type a) "units"); simpl; tauto.
  - unfold toggleTheme. simpl. tauto.
  - unfold dismissFeatureInfo. simpl. tauto.
  - unfold toggleDetails. simpl. tauto.
  - unfold changeLocation. simpl. tauto.
Qed.

Lemma Safe_loadPreferences (st : LocalStorage.t) :
  stored_ok st -> Safe (loadPreferences st).
Proof.
  intros [Hre Hfa]. unfold loadPreferences.
  repeat (apply Safe_bind; [| intros _]);
    try (apply Safe_when_truthy; intros; apply Safe_call; exact I);
    apply Safe_call; assumption.
Qed.

(** ** The store keeps well-formed lists *)

Lemma setItem_ok (w : LocalStorage.SetItem) (st : LocalStorage.t) :
  item_ok w -> stored_ok st -> stored_ok (LocalStorage.setItem w st).
Proof.
  unfold stored_ok. destruct st, w; simpl; tauto.
Qed.

Lemma write_ok (completed : nat) (ws : list LocalStorage.SetItem) (st : LocalStorage.t) :
  Forall item_ok ws -> stored_ok st -> stored_ok (LocalStorage.write completed ws st).
Proof.
  unfold LocalStorage.write. intros Hws. revert completed st.
  induction Hws as [|w ws Hw _ IH]; intros [|n] st Hst; simpl; try assumption.
  apply IH. now apply setItem_ok.
Qed.

Lemma savePreferences_ok (completed : nat) (render : State) (st : LocalStorage.t) :
  Inv render -> stored_ok st -> stored_ok (savePreferences completed render st).
Proof.
  intros (Hlen & Hre & Hfa). apply write_ok.
  repeat apply Forall_cons; try apply Forall_nil; simpl;
    try exact I; try assumption.
  now split.
Qed.

Lemma handler_storage_ok (ev : Event) (completed : nat) (st : LocalStorage.t) :
  stored_ok st -> stored_ok (handler_storage ev completed st).
Proof.
  intros H. destruct ev; simpl; try assumption.
  apply write_ok; [| exact H].
  apply Forall_cons; [exact I | apply Forall_nil].
Qed.

Lemma Inv_initial : Inv initial.
Proof. repeat split; simpl; try lia; constructor. Qed.

Lemma stored_ok_empty : stored_ok LocalStorage.empty.
Proof. repeat split; simpl; try lia; constructor. Qed.

(** ** The invariant over time *)

Lemma Safe_park (p : Async unit) (waiting : list (Async unit)) :
  Safe p -> Forall Safe waiting -> Forall Safe (park p waiting).
Proof.
  intros Hp Hw. destruct p; simpl; try assumption. now constructor.
Qed.

Lemma SysInv_page_load (first second : nat) (st : LocalStorage.t) :
  stored_ok st -> SysInv (page_load first second st).
Proof.
  intros Hst.
  destruct (@advance_ok _ (loadPreferences st) initial
              (Safe_loadPreferences st Hst) Inv_initial) as [Hview _].
  split; [exact Hview | split]; simpl; [| constructor].
  apply savePreferences_ok; [exact Hview |].
  apply savePreferences_ok; [apply Inv_initial | exact Hst].
Qed.

Lemma SysInv_step (API_KEY : option string) (a b : System) :
  step API_KEY a b -> SysInv a -> SysInv b.
Proof.
  intros Hstep (Hview & Hstore & Hwait).
  destruct Hstep as [sys ev stored saved s' p' Hadv
                    | sys before after ep url k r saved s' p' Hsplit Hadv
                    | sys first second].
  - destruct (@advance_ok _ (handler API_KEY ev (view sys)) (view sys)
                (@Safe_handler API_KEY ev _ Hview) Hview) as [Hs Hp].
    rewrite Hadv in Hs, Hp. simpl in Hs, Hp.
    split; [exact Hs | split]; simpl.
    + apply savePreferences_ok; [exact Hs | now apply handler_storage_ok].
    + now apply Safe_park.
  - rewrite Hsplit in Hwait. apply Forall_app in Hwait as [Hbefore Hrest].
    inversion Hrest as [| ? ? Hfetch Hafter]; subst.
    destruct (@advance_ok _ (k r) (view sys) (Hfetch r) Hview) as [Hs Hp].
    rewrite Hadv in Hs, Hp. simpl in Hs, Hp.
    split; [exact Hs | split]; simpl.
    + now apply savePreferences_ok.
    + apply Forall_app. split; [exact Hbefore | now apply Safe_park].
  - now apply SysInv_page_load.
Qed.

Lemma SysInv_Reachable (API_KEY : option string) (sys : System) :
  Reachable API_KEY sys -> SysInv sys.
Proof.
  induction 1 as [first second | a b _ IH Hstep].
  - apply SysInv_page_load, stored_ok_empty.
  - eapply SysInv_step; eassumption.
Qed.

(** ** Searching *)

(** The state a search leaves when both requests succeed. *)
Lemma fetchWeather_success (API_KEY : option string) (s : State) (net : Network)
    (searchLocation : string) (w : WeatherData.t) (f : ForecastJson) :
  truthy API_KEY = true ->
  net WeatherEndpoint (weather_url API_KEY searchLocation (units s))
    = Fulfilled {| ok := true; json := Fulfilled w |} ->
  net ForecastEndpoint (forecast_url API_KEY searchLocation (units s))
    = Fulfilled {| ok := true; json := Fulfilled f |} ->
  run net (fetchWeather API_KEY s searchLocation) s =
  {| final := {|
       location := location s;
       weather := Some w;
       forecast := list_ f;
       units := units s;
       theme := theme s;
       loading := false;
       error := None;
       recentLocations :=
         if includes (recentLocations s) searchLocation then recentLocations s
         else firstn 5 (searchLocation :: recentLocations s);
       favorites := favorites s;
       showFeatureInfo := showFeatureInfo s;
       lastAction := lastAction s;
       showDetails := showDetails s |};
     requests := [ weather_url API_KEY searchLocation (units s);
                   forecast_url API_KEY searchLocation (units s) ];
     result := Fulfilled tt |}.
Proof.
  intros Hkey Hw Hf. unfold fetchWeather. rewrite Hkey. simpl.
  rewrite Hw. simpl. rewrite Hf. simpl.
  destruct (includes (recentLocations s) searchLocation); destruct s; reflexivity.
Qed.

(** The state a search leaves when the first request succeeds and the
    forecast request is answered with a failure status. *)
Lemma fetchWeather_forecast_not_ok (API_KEY : option string) (s : State) (net : Network)
    (searchLocation : string) (w : WeatherData.t) (body : Settled ForecastJson) :
  truthy API_KEY = true ->
  net WeatherEndpoint (weather_url API_KEY searchLocation (units s))
    = Fulfilled {| ok := true; json := Fulfilled w |} ->
  net ForecastEndpoint (forecast_url API_KEY searchLocation (units s))
    = Fulfilled {| ok := false; json := body |} ->
  run net (fetchWeather API_KEY s searchLocation) s =
  {| final := update (setLoading false) (update (setError (Some forecast_message)) s);
     requests := [ weather_url API_KEY searchLocation (units s);
                   forecast_url API_KEY searchLocation (units s) ];
     result := Fulfilled tt |}.
Proof.
  intros Hkey Hw Hf. unfold fetchWeather. rewrite Hkey. simpl.
  rewrite Hw. simpl. rewrite Hf. simpl.
  destruct s; reflexivity.
Qed.

(** The state a search leaves when the first request is answered with a
    failure status: the second request is not made. *)
Lemma fetchWeather_weather_not_ok (API_KEY : option string) (s : State) (net : Network)
    (searchLocation : string) (body : Settled WeatherData.t) :
  truthy API_KEY = true ->
  net WeatherEndpoint (weather_url API_KEY searchLocation (units s))
    = Fulfilled {| ok := false; json := body |} ->
  run net (fetchWeather API_KEY s searchLocation) s =
  {| final := update (setLoading false) (update (setError (Some not_found_message)) s);
     requests := [ weather_url API_KEY searchLocation (units s) ];
     result := Fulfilled tt |}.
Proof.
  intros Hkey Hw. unfold fetchWeather. rewrite Hkey. simpl.
  rewrite Hw. simpl. destruct s; reflexivity.
Qed.

(** Without a key the whole of [fetchWeather] is one setter call. *)
Lemma fetchWeather_no_key (API_KEY : option string) (s : State) (searchLocation : string) :
  truthy API_KEY = false ->
  fetchWeather API_KEY s searchLocation = call (setError (Some unavailable_message)).
Proof. intros Hkey. unfold fetchWeather. now rewrite Hkey. Qed.

(** C1 (as amended).  For every place name P that is not in Recent
    Locations and every prior list, a successful search for P makes
    Recent Locations equal to P followed by the prior list, cut to its
    first five entries; the new list has at most five entries, and it has
    no duplicates whenever the prior list had none. *)
Theorem search_prepends_new_place (API_KEY : option string) (s : State) (net : Network)
    (P : string) (w : WeatherData.t) (f : ForecastJson) :
  truthy API_KEY = true ->
  ~ In P (recentLocations s) ->
  net WeatherEndpoint (weather_url API_KEY P (units s))
    = Fulfilled {| ok := true; json := Fulfilled w |} ->
  net ForecastEndpoint (forecast_url API_KEY P (units s))
    = Fulfilled {| ok := true; json := Fulfilled f |} ->
  let s' := final (run net (fetchWeather API_KEY s P) s) in
  recentLocations s' = firstn 5 (P :: recentLocations s) /\
  length (recentLocations s') <= 5 /\
  (NoDup (recentLocations s) -> NoDup (recentLocations s')).
Proof.
  intros Hkey Hnew Hw Hf s'. subst s'.
  rewrite (fetchWeather_success API_KEY s net P w f Hkey Hw Hf).
  apply includes_false_iff in Hnew. cbn [final recentLocations]. rewrite Hnew.
  split; [reflexivity | split].
  - apply firstn_le_length.
  - intros Hnodup. apply NoDup_firstn. constructor; [| exact Hnodup].
    now apply includes_false_iff.
Qed.

Lemma search_prepends_new_place_witness :
  recentLocations
    (final (run sunny
              (fetchWeather (Some "k") (listing ["Oslo"; "Rome"; "Lima"; "Kyiv"; "Bern"] []) "Paris")
              (listing ["Oslo"; "Rome"; "Lima"; "Kyiv"; "Bern"] [])))
  = ["Paris"; "Oslo"; "Rome"; "Lima"; "Kyiv"].
Proof.
  apply (search_prepends_new_place (Some "k")
           (listing ["Oslo"; "Rome"; "Lima"; "Kyiv"; "Bern"] []) sunny "Paris"
           paris {| list_ := five_days |}).
  - reflexivity.
  - simpl. intros H. repeat (destruct H as [H | H]; [discriminate H |]). exact H.
  - reflexivity.
  - reflexivity.
Defined.

(** C1, as stated, fails when the prior list already holds a place
    twice: the search for a third place succeeds and the list it stores
    still holds the repeated place. *)
Lemma search_keeps_old_duplicates :
  let s := listing ["Rome"; "Rome"] [] in
  let o := run sunny (fetchWeather (Some "k") s "Paris") s in
  ~ In "Paris" (recentLocations s) /\
  weather (final o) = Some paris /\
  recentLocations (final o) = ["Paris"; "Rome"; "Rome"] /\
  ~ NoDup (recentLocations (final o)).
Proof.
  cbv zeta. repeat split.
  - simpl. intros H. repeat (destruct H as [H | H]; [discriminate H |]). exact H.
  - intros Hnodup. vm_compute in Hnodup.
    inversion Hnodup as [| ? ? _ Htail]; subst.
    inversion Htail as [| ? ? Hnotin _]; subst.
    apply Hnotin. now left.
Qed.

(** C2.  With no API credential configured (the variable is undefined or
    empty), a search issues no network request whatever the network
    would answer, finishes before control returns to the event loop,
    and sets the error to the service-unavailable message; loading,
    weather and forecast keep their values (as does every other cell
    but the error). *)
Theorem search_without_credential (API_KEY : option string) (s : State) (net : Network)
    (searchLocation : string) :
  truthy API_KEY = false ->
  let o := run net (fetchWeather API_KEY s searchLocation) s in
  requests o = [] /\
  advance (fetchWeather API_KEY s searchLocation) s = (final o, Return tt) /\
  final o = update (setError (Some unavailable_message)) s /\
  error (final o) = Some unavailable_message /\
  loading (final o) = loading s /\
  weather (final o) = weather s /\
  forecast (final o) = forecast s.
Proof.
  intros Hkey o. subst o. rewrite (fetchWeather_no_key API_KEY s searchLocation Hkey).
  destruct s; simpl. repeat split.
Qed.

Lemma search_without_credential_witness :
  requests (run sunny (fetchWeather None (listing ["Oslo"] []) "Paris") (listing ["Oslo"] [])) = [] /\
  error (final (run sunny (fetchWeather (Some "") initial "Paris") initial))
    = Some "Weather data is temporarily unavailable. Please check back later.".
Proof.
  split.
  - apply (search_without_credential None (listing ["Oslo"] []) sunny "Paris"). reflexivity.
  - apply (search_without_credential (Some "") initial sunny "Paris"). reflexivity.
Defined.

(** C3.  When the current-conditions request succeeds and the forecast
    request is answered with a failure status, the search ends with the
    error "Forecast data unavailable"; the conditions already fetched are
    stored nowhere, and weather and forecast (and both lists) are what
    they were before the search. *)
Theorem search_forecast_failure (API_KEY : option string) (s : State) (net : Network)
    (searchLocation : string) (w : WeatherData.t) (body : Settled ForecastJson) :
  truthy API_KEY = true ->
  net WeatherEndpoint (weather_url API_KEY searchLocation (units s))
    = Fulfilled {| ok := true; json := Fulfilled w |} ->
  net ForecastEndpoint (forecast_url API_KEY searchLocation (units s))
    = Fulfilled {| ok := false; json := body |} ->
  let o := run net (fetchWeather API_KEY s searchLocation) s in
  error (final o) = Some "Forecast data unavailable" /\
  weather (final o) = weather s /\
  forecast (final o) = forecast s /\
  final o = update (setLoading false) (update (setError (Some forecast_message)) s) /\
  recentLocations (final o) = recentLocations s /\
  favorites (final o) = favorites s.
Proof.
  intros Hkey Hw Hf o. subst o.
  rewrite (fetchWeather_forecast_not_ok API_KEY s net searchLocation w body Hkey Hw Hf).
  destruct s; simpl. repeat split.
Qed.

Lemma search_forecast_failure_witness :
  error (final (run no_forecast (fetchWeather (Some "k") initial "Paris") initial))
    = Some "Forecast data unavailable" /\
  weather (final (run no_forecast (fetchWeather (Some "k") initial "Paris") initial))
    = None.
Proof.
  pose proof (search_forecast_failure (Some "k") initial no_forecast "Paris" paris
                (Rejected (Error "Unexpected token")) eq_refl eq_refl eq_refl) as H.
  cbv zeta in H. split; apply H.
Defined.

(** C10.  For every place name P that is in Recent Locations, at any
    position, a successful search for P stores the new weather and
    forecast and leaves Recent Locations exactly as it was: P is not
    moved to the front. *)
Theorem search_known_place (API_KEY : option string) (s : State) (net : Network)
    (P : string) (w : WeatherData.t) (f : ForecastJson) :
  truthy API_KEY = true ->
  In P (recentLocations s) ->
  net WeatherEndpoint (weather_url API_KEY P (units s))
    = Fulfilled {| ok := true; json := Fulfilled w |} ->
  net ForecastEndpoint (forecast_url API_KEY P (units s))
    = Fulfilled {| ok := true; json := Fulfilled f |} ->
  let s' := final (run net (fetchWeather API_KEY s P) s) in
  weather s' = Some w /\
  forecast s' = list_ f /\
  recentLocations s' = recentLocations s.
Proof.
  intros Hkey Hold Hw Hf s'. subst s'.
  rewrite (fetchWeather_success API_KEY s net P w f Hkey Hw Hf).
  apply includes_true_iff in Hold. cbn [final weather forecast recentLocations].
  rewrite Hold. repeat split.
Qed.

Lemma search_known_place_witness :
  recentLocations
    (final (run sunny (fetchWeather (Some "k") (listing ["Oslo"; "Paris"; "Rome"] []) "Paris")
              (listing ["Oslo"; "Paris"; "Rome"] [])))
  = ["Oslo"; "Paris"; "Rome"].
Proof.
  apply (search_known_place (Some "k") (listing ["Oslo"; "Paris"; "Rome"] []) sunny "Paris"
           paris {| list_ := five_days |}).
  - reflexivity.
  - simpl. right. left. reflexivity.
  - reflexivity.
  - reflexivity.
Defined.

(** ** Units and undo *)

Lemma perform_toggleUnits (s : State) :
  advance (toggleUnits s) s =
  (update (setLastAction (Some {| type := "units"; value := units s |}))
     (update (setUnits (if String.eqb (units s) "metric" then "imperial" else "metric")) s),
   Return tt).
Proof. reflexivity. Qed.

(** C4.  For every unit value u: after a toggle from u, Undo puts the
    units back to exactly u and empties the last-action slot, so the undo
    control is not rendered; a second Undo changes nothing. *)
Theorem undo_after_toggle (s : State) (u : string) :
  let start := update (setUnits u) s in
  let toggled := perform (toggleUnits start) start in
  let undone := perform (undoLastAction toggled) toggled in
  undoControl toggled = true /\
  units undone = u /\
  lastAction undone = None /\
  undoControl undone = false /\
  perform (undoLastAction undone) undone = undone.
Proof.
  destruct s; simpl. repeat split.
Qed.

(** C8.  A unit toggle flips metric and imperial, records the prior
    value as the last action, makes no request and changes no other
    cell: weather and forecast hold exactly the values they held. *)
Theorem toggleUnits_frame (s : State) (net : Network) :
  let o := run net (toggleUnits s) s in
  let s' := final o in
  requests o = [] /\
  advance (toggleUnits s) s = (s', Return tt) /\
  units s' = (if String.eqb (units s) "metric" then "imperial" else "metric") /\
  units (perform (toggleUnits (update (setUnits "metric") s)) (update (setUnits "metric") s)) = "imperial" /\
  units (perform (toggleUnits (update (setUnits "imperial") s)) (update (setUnits "imperial") s)) = "metric" /\
  lastAction s' = Some {| type := "units"; value := units s |} /\
  weather s' = weather s /\
  forecast s' = forecast s /\
  location s' = location s /\
  theme s' = theme s /\
  loading s' = loading s /\
  error s' = error s /\
  recentLocations s' = recentLocations s /\
  favorites s' = favorites s /\
  showFeatureInfo s' = showFeatureInfo s /\
  showDetails s' = showDetails s.
Proof.
  destruct s; simpl. repeat split.
Qed.

(** ** Favorites *)

Lemma favorites_toggleFavorite (s : State) (loc : string) :
  favorites (perform (toggleFavorite s loc) s) =
  if includes (favorites s) loc
  then filter (fun f => negb (String.eqb f loc)) (favorites s)
  else favorites s ++ [loc].
Proof.
  unfold perform, toggleFavorite.
  destruct (includes (favorites s) loc); destruct s; reflexivity.
Qed.

(** C5.  For every place name P and every favorites list, toggling P
    twice in succession gives a list with exactly the members of the
    original one. *)
Theorem toggleFavorite_twice (s : State) (P : string) (x : string) :
  let once := perform (toggleFavorite s P) s in
  let twice := perform (toggleFavorite once P) once in
  In x (favorites twice) <-> In x (favorites s).
Proof.
  cbv zeta. rewrite !favorites_toggleFavorite.
  destruct (includes (favorites s) P) eqn:Hin.
  - apply includes_true_iff in Hin.
    assert (Hout : includes (filter (fun f => negb (String.eqb f P)) (favorites s)) P = false).
    { apply includes_false_iff. rewrite In_unstar. tauto. }
    rewrite Hout, in_app_iff, In_unstar. simpl.
    destruct (String.eqb_spec x P) as [-> | Hne]; intuition congruence.
  - assert (Hnow : includes (favorites s ++ [P]) P = true).
    { apply includes_true_iff, in_app_iff. right. now left. }
    apply includes_false_iff in Hin.
    rewrite Hnow, In_unstar, in_app_iff. simpl.
    split; [intuition congruence | intros Hx; split; [now left | congruence]].
Qed.
(** When P was not a favorite the list itself comes back. *)
Lemma toggleFavorite_twice_absent (s : State) (P : string) :
  ~ In P (favorites s) ->
  let once := perform (toggleFavorite s P) s in
  favorites (perform (toggleFavorite once P) once) = favorites s.
Proof.
  intros Hout. cbv zeta. rewrite !favorites_toggleFavorite.
  rewrite (proj2 (includes_false_iff (favorites s) P) Hout).
  assert (Hnow : includes (favorites s ++ [P]) P = true).
  { apply includes_true_iff, in_app_iff. right. now left. }
  rewrite Hnow, filter_app, (unstar_absent (favorites s) P Hout). simpl.
  rewrite String.eqb_refl. simpl. apply app_nil_r.
Qed.

(** ** The forecast chart *)

Lemma succ_mod_8 (i : nat) : S i mod 8 = S (i mod 8) mod 8.
Proof.
  change (S i) with (1 + i). rewrite Nat.Div0.add_mod. reflexivity.
Qed.

(** Where the next kept index lies, seen from index [i]. *)
Lemma next_eighth (i : nat) :
  i mod 8 <> 0 -> (8 - i mod 8) mod 8 = S ((8 - S i mod 8) mod 8).
Proof.
  rewrite succ_mod_8.
  assert (Hm : i mod 8 < 8) by (apply Nat.mod_upper_bound; discriminate).
  revert Hm. generalize (i mod 8) as m. intros m Hm Hne.
  do 8 (destruct m as [|m]; [try reflexivity; contradiction |]). lia.
Qed.

Lemma filter_from_cons (A : Type) (p : A -> nat -> bool) (i : nat) (x : A) (l : list A) :
  filter_from p i (x :: l) =
  if p x i then x :: filter_from p (S i) l else filter_from p (S i) l.
Proof. reflexivity. Qed.

Lemma nth_error_every_eighth (A : Type) (l : list A) (i k : nat) :
  nth_error (filter_from (fun _ index => Nat.eqb (index mod 8) 0) i l) k =
  nth_error l (8 * k + (8 - i mod 8) mod 8).
Proof.
  revert i k. induction l as [|x l IH]; intros i k.
  - cbn [filter_from]. now rewrite !nth_error_nil.
  - rewrite filter_from_cons. cbv beta.
    destruct (Nat.eqb_spec (i mod 8) 0) as [H0 | H0].
    + rewrite H0. change ((8 - 0) mod 8) with 0.
      destruct k as [|k]; [reflexivity |].
      replace (8 * S k + 0) with (S (8 * k + 7)) by lia.
      cbn [nth_error]. rewrite IH, succ_mod_8, H0. reflexivity.
    + rewrite IH, (next_eighth i H0), Nat.add_succ_r. reflexivity.
Qed.

Lemma nth_error_chartData (toLocaleDateString : float -> string)
    (f : list ForecastData.t) (k : nat) :
  nth_error (chartData toLocaleDateString f) k =
  option_map (chart_point toLocaleDateString) (nth_error f (8 * k)).
Proof.
  unfold chartData, filter_index.
  rewrite nth_error_map, nth_error_every_eighth.
  change ((8 - 0 mod 8) mod 8) with 0. now rewrite Nat.add_0_r.
Qed.

(** C6.  For a forecast of 40 points the chart data has exactly 5
    points, made from the points at indices 0, 8, 16, 24 and 32 in that
    order; each carries the temperature of its point and, as its label,
    the local date of the point's timestamp (seconds, turned into
    milliseconds); and this is the data of the chart that is rendered. *)
Theorem chart_of_five_days (toLocaleDateString : float -> string)
    (s : State) (f : list ForecastData.t) :
  length f = 40 ->
  length (chartData toLocaleDateString f) = 5 /\
  (forall item,
      ChartData.temp (chart_point toLocaleDateString item)
        = ForecastData.temp (ForecastData.main item) /\
      ChartData.date (chart_point toLocaleDateString item)
        = toLocaleDateString (ForecastData.dt item * 1000)%float) /\
  map Some (chartData toLocaleDateString f) =
    map (fun i => option_map (chart_point toLocaleDateString) (nth_error f i))
      [0; 8; 16; 24; 32] /\
  renderForecastChart toLocaleDateString (update (setForecast f) s) =
    Some (chartData toLocaleDateString f).
Proof.
  intros Hlen.
  assert (Hfive : length (chartData toLocaleDateString f) = 5).
  { assert (Hlt : 4 < length (chartData toLocaleDateString f)).
    { apply nth_error_Some. rewrite nth_error_chartData.
      destruct (nth_error f (8 * 4)) eqn:Hnth; [discriminate |].
      apply nth_error_None in Hnth. simpl in Hnth. lia. }
    assert (Hle : length (chartData toLocaleDateString f) <= 5).
    { apply nth_error_None. rewrite nth_error_chartData.
      rewrite (proj2 (nth_error_None f (8 * 5))); [reflexivity | simpl; lia]. }
    lia. }
  split; [exact Hfive | split; [intros item; split; reflexivity | split]].
  - pose proof (nth_error_chartData toLocaleDateString f) as Hnth.
    destruct (chartData toLocaleDateString f) as [|c0 [|c1 [|c2 [|c3 [|c4 [|c5 rest]]]]]];
      try discriminate Hfive.
    set (point := chart_point toLocaleDateString) in *.
    assert (H0 : Some c0 = option_map point (nth_error f 0)) by exact (Hnth 0).
    assert (H1 : Some c1 = option_map point (nth_error f 8)) by exact (Hnth 1).
    assert (H2 : Some c2 = option_map point (nth_error f 16)) by exact (Hnth 2).
    assert (H3 : Some c3 = option_map point (nth_error f 24)) by exact (Hnth 3).
    assert (H4 : Some c4 = option_map point (nth_error f 32)) by exact (Hnth 4).
    cbn [map]. now rewrite <- H0, <- H1, <- H2, <- H3, <- H4.
  - unfold renderForecastChart. destruct s; simpl. rewrite Hlen. reflexivity.
Qed.

Lemma chart_of_five_days_witness :
  length (chartData day_label five_days) = 5 /\
  map ChartData.temp (chartData day_label five_days) = [10; 12; 14; 16; 18]%float /\
  map ChartData.date (chartData day_label five_days)
    = ["11/14/2023"; "later"; "later"; "later"; "later"].
Proof.
  split.
  - apply (chart_of_five_days day_label initial five_days). reflexivity.
  - split; reflexivity.
Defined.

(** ** The invariant *)

(** C7.  In every reachable state Recent Locations has at most five
    entries and no duplicates and Favorites has no duplicates; and every
    operation (a search, whatever the network answers, a favorite toggle,
    a unit toggle, undo, a theme toggle and the other controls), run from
    a state with these properties, ends in a state with them. *)
Theorem lists_stay_well_formed (API_KEY : option string) :
  (forall sys : System, Reachable API_KEY sys -> Inv (view sys)) /\
  (forall (ev : Event) (s : State) (net : Network),
      Inv s -> Inv (final (run net (handler API_KEY ev s) s))).
Proof.
  split.
  - intros sys Hreach. apply (SysInv_Reachable API_KEY sys Hreach).
  - intros ev s net Hs. apply run_ok; [now apply Safe_handler | exact Hs].
Qed.

Lemma lists_stay_well_formed_witness :
  Inv (view starred) /\
  Inv (final (run sunny (handler (Some "k") (Search "Paris")
                           (listing ["Oslo"; "Rome"; "Lima"; "Kyiv"; "Bern"] ["Oslo"]))
                (listing ["Oslo"; "Rome"; "Lima"; "Kyiv"; "Bern"] ["Oslo"]))).
Proof.
  split.
  - apply (proj1 (lists_stay_well_formed (Some "k")) starred).
    apply (@reach_step (Some "k") first_visit starred).
    + apply reach_first_visit.
    + exact (@step_event (Some "k") first_visit (ToggleFavorite "Paris") 0 4
               (view starred) (Return tt) eq_refl).
  - apply (proj2 (lists_stay_well_formed (Some "k"))).
    unfold Inv. simpl. repeat split; try lia.
    all: repeat (constructor; [simpl; intuition discriminate |]); constructor.
Defined.

Lemma step_submit (API_KEY : option string) (sys : System) (searchLocation : string) :
  step API_KEY sys (submit API_KEY sys searchLocation).
Proof.
  unfold submit.
  destruct (advance (handler API_KEY (Search searchLocation) (view sys)) (view sys))
    as [s' p'] eqn:Hadv.
  exact (@step_event API_KEY sys (Search searchLocation) 0 4 s' p' Hadv).
Qed.

Lemma step_answer (API_KEY : option string) (net : Network) (sys : System)
    (ep : Endpoint) (url : string) (k : Settled (Response (Body ep)) -> Async unit)
    (waiting : list (Async unit)) :
  inflight sys = Fetch ep url k :: waiting ->
  step API_KEY sys (answer net sys).
Proof.
  intros Hwait. unfold answer. rewrite Hwait.
  destruct (advance (k (net ep url)) (view sys)) as [s' p'] eqn:Hadv.
  exact (@step_response API_KEY sys [] waiting ep url k (net ep url) 4 s' p' Hwait Hadv).
Qed.

(** A search that takes three steps of the page: the submit, the answer
    to the first request, and the answer to the second. *)
Example search_over_three_steps :
  let sys := answer sunny (answer sunny (submit (Some "k") first_visit "Paris")) in
  Reachable (Some "k") sys /\
  loading (view (submit (Some "k") first_visit "Paris")) = true /\
  recentLocations (view sys) = ["Paris"] /\
  LocalStorage.recentLocations (storage sys) = Some ["Paris"] /\
  loading (view sys) = false /\
  inflight sys = [].
Proof.
  cbv zeta. split; [| repeat split].
  eapply reach_step; [eapply reach_step; [eapply reach_step |] |].
  - apply (@reach_first_visit (Some "k") 4 4).
  - apply (step_submit (Some "k") first_visit "Paris").
  - eapply step_answer. reflexivity.
  - eapply step_answer. reflexivity.
Qed.

(** Two searches that overlap: both closures hold the list of the render
    they were started from, so the one that finishes last overwrites what
    the other stored. *)
Example overlapping_searches :
  let both := submit (Some "k") (submit (Some "k") first_visit "Paris") "Rome" in
  let sys := answer sunny (answer sunny (answer sunny (answer sunny both))) in
  recentLocations (view (answer sunny (answer sunny both))) = ["Rome"] /\
  recentLocations (view sys) = ["Paris"] /\
  inflight sys = [].
Proof. repeat split. Qed.

(** ** The footer notice *)

(** C9 fails on the code.  When the credential is missing, and when the
    provider turns the first request down (as it does for an invalid
    key), the error is one of the two fixed messages; neither mentions
    "API key", so the footer notice is not rendered. *)
Theorem footer_notice_not_rendered (API_KEY : option string) (s : State) (net : Network)
    (searchLocation : string) :
  truthy API_KEY = false \/
  (exists body, net WeatherEndpoint (weather_url API_KEY searchLocation (units s))
                = Fulfilled {| ok := false; json := body |}) ->
  let s' := final (run net (fetchWeather API_KEY s searchLocation) s) in
  (error s' = Some unavailable_message \/ error s' = Some not_found_message) /\
  footerNotice s' = false.
Proof.
  intros H s'. subst s'.
  destruct (truthy API_KEY) eqn:Hkey.
  - destruct H as [H | [body Hw]]; [discriminate H |].
    rewrite (fetchWeather_weather_not_ok API_KEY s net searchLocation body Hkey Hw).
    destruct s; simpl. split; [now right | reflexivity].
  - rewrite (fetchWeather_no_key API_KEY s searchLocation Hkey).
    destruct s; simpl. split; [now left | reflexivity].
Qed.

Lemma footer_notice_not_rendered_witness :
  footerNotice (final (run sunny (fetchWeather None initial "Paris") initial)) = false /\
  footerNotice (final (run unauthorized (fetchWeather (Some "k") initial "Paris") initial)) = false.
Proof.
  split.
  - apply (footer_notice_not_rendered None initial sunny "Paris"). left. reflexivity.
  - apply (footer_notice_not_rendered (Some "k") initial unauthorized "Paris").
    right. exists (Rejected (Error "Unexpected token")). reflexivity.
Defined.

(** * Further properties *)

(** ** Every outcome of a search *)

(** Splits a run of [fetchWeather] with a key into the nine ways the two
    requests can be answered. *)
Ltac search_cases Hkey net key loc render :=
  unfold fetchWeather; rewrite Hkey; simpl;
  destruct (net WeatherEndpoint (weather_url key loc (units render)))
    as [[[|] [?w | ?e]] | ?e]; simpl;
  [ destruct (net ForecastEndpoint (forecast_url key loc (units render)))
      as [[[|] [?f | ?e]] | ?e]; simpl
  | .. ].

(** The state a search leaves when both requests succeed, for a call
    made from the render [render] that finishes in state [s]. *)
Lemma fetchWeather_success_from (API_KEY : option string) (render s : State)
    (net : Network) (searchLocation : string) (w : WeatherData.t) (f : ForecastJson) :
  truthy API_KEY = true ->
  net WeatherEndpoint (weather_url API_KEY searchLocation (units render))
    = Fulfilled {| ok := true; json := Fulfilled w |} ->
  net ForecastEndpoint (forecast_url API_KEY searchLocation (units render))
    = Fulfilled {| ok := true; json := Fulfilled f |} ->
  recentLocations (final (run net (fetchWeather API_KEY render searchLocation) s)) =
    if includes (recentLocations render) searchLocation then recentLocations s
    else firstn 5 (searchLocation :: recentLocations render).
Proof.
  intros Hkey Hw Hf. unfold fetchWeather. rewrite Hkey. simpl.
  rewrite Hw. simpl. rewrite Hf. simpl.
  destruct (includes (recentLocations render) searchLocation); destruct s; reflexivity.
Qed.

(** X1.  When the provider answers the first request with a failure
    status, the search ends with "Location not found...", the forecast
    is never requested, and nothing but the error changes. *)
Theorem search_place_not_found (API_KEY : option string) (s : State) (net : Network)
    (searchLocation : string) (body : Settled WeatherData.t) :
  truthy API_KEY = true ->
  net WeatherEndpoint (weather_url API_KEY searchLocation (units s))
    = Fulfilled {| ok := false; json := body |} ->
  let o := run net (fetchWeather API_KEY s searchLocation) s in
  requests o = [ weather_url API_KEY searchLocation (units s) ] /\
  error (final o) = Some "Location not found. Please check the spelling and try again." /\
  errorBanner (final o) = true /\
  final o = update (setLoading false) (update (setError (Some not_found_message)) s).
Proof.
  intros Hkey Hw o. subst o.
  rewrite (fetchWeather_weather_not_ok API_KEY s net searchLocation body Hkey Hw).
  destruct s; repeat split.
Qed.

Lemma search_place_not_found_witness :
  requests (run unauthorized (fetchWeather (Some "k") initial "Atlantis") initial)
    = [ "https://api.openweathermap.org/data/2.5/weather?q=Atlantis&units=metric&appid=k" ].
Proof.
  apply (search_place_not_found (Some "k") initial unauthorized "Atlantis"
           (Rejected (Error "Unexpected token"))); reflexivity.
Defined.

(** X2.  When the first request itself fails (the promise of [fetch] is
    rejected), the error shown is the message of the thrown [Error], or
    "An unknown error occurred" for a thrown value that is not an
    [Error]; one request was made and nothing but the error changes. *)
Theorem search_request_rejected (API_KEY : option string) (s : State) (net : Network)
    (searchLocation : string) (e : Thrown) :
  truthy API_KEY = true ->
  net WeatherEndpoint (weather_url API_KEY searchLocation (units s)) = Rejected e ->
  let o := run net (fetchWeather API_KEY s searchLocation) s in
  requests o = [ weather_url API_KEY searchLocation (units s) ] /\
  error (final o) =
    Some (match e with
          | Error message => message
          | NotAnError => "An unknown error occurred"
          end) /\
  final o = update (setLoading false) (update (setError (Some (message_of e))) s).
Proof.
  intros Hkey Hw o. subst o. unfold fetchWeather. rewrite Hkey. simpl.
  rewrite Hw. simpl. destruct s, e; repeat split.
Qed.

Lemma search_request_rejected_witness :
  error (final (run offline (fetchWeather (Some "k") initial "Paris") initial))
    = Some "Failed to fetch".
Proof.
  apply (search_request_rejected (Some "k") initial offline "Paris"
           (Error "Failed to fetch")); reflexivity.
Defined.



(** X4.  A search made with a key sends one or two requests, always the
    current-conditions request first; the forecast request follows
    exactly when the first answer has a success status and a readable
    body, and it carries the same place, unit and key. *)
Theorem search_requests (API_KEY : option string) (s : State) (net : Network)
    (searchLocation : string) :
  truthy API_KEY = true ->
  let o := run net (fetchWeather API_KEY s searchLocation) s in
  let first := weather_url API_KEY searchLocation (units s) in
  let second := forecast_url API_KEY searchLocation (units s) in
  (requests o = [first] \/ requests o = [first; second]) /\
  (requests o = [first; second] <->
   exists w, net WeatherEndpoint first = Fulfilled {| ok := true; json := Fulfilled w |}).
Proof.
  intros Hkey o first second. subst o first second.
  unfold fetchWeather. rewrite Hkey. simpl.
  destruct (net WeatherEndpoint (weather_url API_KEY searchLocation (units s)))
    as [[[|] [w | e]] | e]; simpl.
  1: { split.
       - right.
         destruct (net ForecastEndpoint (forecast_url API_KEY searchLocation (units s)))
           as [[[|] [f | e]] | e]; simpl;
           try destruct (includes (recentLocations s) searchLocation); reflexivity.
       - split; [intros _; now exists w |].
         intros _.
         destruct (net ForecastEndpoint (forecast_url API_KEY searchLocation (units s)))
           as [[[|] [f | e]] | e]; simpl;
           try destruct (includes (recentLocations s) searchLocation); reflexivity. }
  all: split; [now left |]; split; [discriminate | intros [w' Hw']; discriminate Hw'].
Qed.

Lemma search_requests_witness :
  length (requests (run sunny (fetchWeather (Some "k") initial "Paris") initial)) = 2.
Proof.
  destruct (search_requests (Some "k") initial sunny "Paris" eq_refl) as [_ Hboth].
  cbv zeta in Hboth. rewrite (proj2 Hboth); [reflexivity |].
  exists paris. reflexivity.
Defined.



(** X6.  Two successful searches for different new places that were
    both started from the same render: the one that finishes last stores
    its own place in front of the list of that render, and the place of
    the other search is not in Recent Locations. *)
Theorem overlapping_searches_lose_a_place (API_KEY : option string) (s : State)
    (net : Network) (A B : string) (wA wB : WeatherData.t) (fA fB : ForecastJson) :
  truthy API_KEY = true ->
  A <> B ->
  ~ In A (recentLocations s) ->
  ~ In B (recentLocations s) ->
  net WeatherEndpoint (weather_url API_KEY A (units s))
    = Fulfilled {| ok := true; json := Fulfilled wA |} ->
  net ForecastEndpoint (forecast_url API_KEY A (units s))
    = Fulfilled {| ok := true; json := Fulfilled fA |} ->
  net WeatherEndpoint (weather_url API_KEY B (units s))
    = Fulfilled {| ok := true; json := Fulfilled wB |} ->
  net ForecastEndpoint (forecast_url API_KEY B (units s))
    = Fulfilled {| ok := true; json := Fulfilled fB |} ->
  let after_A := final (run net (fetchWeather API_KEY s A) s) in
  let after_B := final (run net (fetchWeather API_KEY s B) after_A) in
  In A (recentLocations after_A) /\
  recentLocations after_B = firstn 5 (B :: recentLocations s) /\
  ~ In A (recentLocations after_B).
Proof.
  intros Hkey Hne HA HB HwA HfA HwB HfB after_A after_B. subst after_A after_B.
  rewrite (fetchWeather_success_from API_KEY s _ net B wB fB Hkey HwB HfB).
  rewrite (fetchWeather_success_from API_KEY s s net A wA fA Hkey HwA HfA).
  rewrite (proj2 (includes_false_iff _ _) HA), (proj2 (includes_false_iff _ _) HB).
  split; [now left | split; [reflexivity |]].
  intros Hin. apply In_firstn in Hin. destruct Hin as [Heq | Hin]; [| contradiction].
  apply Hne. now symmetry.
Qed.

Lemma overlapping_searches_lose_a_place_witness :
  let after_A := final (run sunny (fetchWeather (Some "k") initial "Paris") initial) in
  recentLocations (final (run sunny (fetchWeather (Some "k") initial "Rome") after_A))
    = ["Rome"].
Proof.
  cbv zeta.
  apply (overlapping_searches_lose_a_place (Some "k") initial sunny "Paris" "Rome"
           paris paris {| list_ := five_days |} {| list_ := five_days |});
    try reflexivity; try discriminate; simpl; tauto.
Defined.

(** X7.  A successful search for a new place when Recent Locations is
    full drops exactly the last entry and keeps the others in order. *)
Theorem search_evicts_last (API_KEY : option string) (s : State) (net : Network)
    (P : string) (w : WeatherData.t) (f : ForecastJson) :
  truthy API_KEY = true ->
  ~ In P (recentLocations s) ->
  length (recentLocations s) = 5 ->
  net WeatherEndpoint (weather_url API_KEY P (units s))
    = Fulfilled {| ok := true; json := Fulfilled w |} ->
  net ForecastEndpoint (forecast_url API_KEY P (units s))
    = Fulfilled {| ok := true; json := Fulfilled f |} ->
  recentLocations (final (run net (fetchWeather API_KEY s P) s))
    = P :: removelast (recentLocations s).
Proof.
  intros Hkey Hnew Hfull Hw Hf.
  rewrite (fetchWeather_success_from API_KEY s s net P w f Hkey Hw Hf).
  rewrite (proj2 (includes_false_iff _ _) Hnew).
  rewrite removelast_firstn_len, Hfull. reflexivity.
Qed.

Lemma search_evicts_last_witness :
  recentLocations
    (final (run sunny
              (fetchWeather (Some "k") (listing ["Oslo"; "Rome"; "Lima"; "Kyiv"; "Bern"] []) "Paris")
              (listing ["Oslo"; "Rome"; "Lima"; "Kyiv"; "Bern"] [])))
  = ["Paris"; "Oslo"; "Rome"; "Lima"; "Kyiv"].
Proof.
  apply (search_evicts_last (Some "k") (listing ["Oslo"; "Rome"; "Lima"; "Kyiv"; "Bern"] [])
           sunny "Paris" paris {| list_ := five_days |}); try reflexivity.
  simpl. intros H. repeat (destruct H as [H | H]; [discriminate H |]). exact H.
Defined.

(** X8.  A search for a place that is already in Recent Locations (what
    a click on a recent chip does) never changes the list, with or
    without a key and whatever the provider answers. *)
Theorem search_again_keeps_list (API_KEY : option string) (s : State) (net : Network)
    (P : string) :
  In P (recentLocations s) ->
  recentLocations (final (run net (fetchWeather API_KEY s P) s)) = recentLocations s.
Proof.
  intros Hin. apply includes_true_iff in Hin.
  destruct (truthy API_KEY) eqn:Hkey.
  - search_cases Hkey net API_KEY P s; try rewrite Hin; destruct s; reflexivity.
  - rewrite (fetchWeather_no_key API_KEY s P Hkey). destruct s; reflexivity.
Qed.

Lemma search_again_keeps_list_witness :
  recentLocations (final (run offline (fetchWeather (Some "k") (listing ["Oslo"; "Rome"] []) "Rome")
                            (listing ["Oslo"; "Rome"] [])))
  = ["Oslo"; "Rome"].
Proof.
  apply (search_again_keeps_list (Some "k") (listing ["Oslo"; "Rome"] []) offline "Rome").
  simpl. tauto.
Defined.

(** The error a search leaves is none, one of the three fixed messages,
    or the message of a value thrown by one of the two requests or by
    reading one of the two bodies. *)
Lemma search_error_cell (API_KEY : option string) (s : State) (net : Network)
    (searchLocation : string) :
  let o := run net (fetchWeather API_KEY s searchLocation) s in
  let first := weather_url API_KEY searchLocation (units s) in
  let second := forecast_url API_KEY searchLocation (units s) in
  error (final o) = None \/
  error (final o) = Some unavailable_message \/
  error (final o) = Some not_found_message \/
  error (final o) = Some forecast_message \/
  exists e, error (final o) = Some (message_of e) /\
    (net WeatherEndpoint first = Rejected e \/
     net WeatherEndpoint first = Fulfilled {| ok := true; json := Rejected e |} \/
     net ForecastEndpoint second = Rejected e \/
     net ForecastEndpoint second = Fulfilled {| ok := true; json := Rejected e |}).
Proof.
  intros o first second. subst o first second.
  destruct (truthy API_KEY) eqn:Hkey.
  2: { rewrite (fetchWeather_no_key API_KEY s searchLocation Hkey).
       destruct s; simpl. tauto. }
  unfold fetchWeather. rewrite Hkey. simpl.
  destruct (net WeatherEndpoint (weather_url API_KEY searchLocation (units s)))
    as [[[|] [w | e]] | e] eqn:HW; simpl.
  1: destruct (net ForecastEndpoint (forecast_url API_KEY searchLocation (units s)))
       as [[[|] [f | e]] | e] eqn:HF; simpl.
  1: destruct (includes (recentLocations s) searchLocation).
  all: destruct s; simpl in *; try tauto.
  all: do 4 right; exists e; split; [reflexivity | tauto].
Qed.



(** X10.  The footer notice about the API key can only follow a search
    in which a request, or the reading of a body, threw a value whose
    message contains "API key": no missing key and no response status
    brings it up. *)
Theorem footer_notice_needs_thrown_message (API_KEY : option string) (s : State)
    (net : Network) (searchLocation : string) :
  footerNotice (final (run net (fetchWeather API_KEY s searchLocation) s)) = true ->
  exists e, str_includes (message_of e) "API key" = true /\
    (net WeatherEndpoint (weather_url API_KEY searchLocation (units s)) = Rejected e \/
     net WeatherEndpoint (weather_url API_KEY searchLocation (units s))
       = Fulfilled {| ok := true; json := Rejected e |} \/
     net ForecastEndpoint (forecast_url API_KEY searchLocation (units s)) = Rejected e \/
     net ForecastEndpoint (forecast_url API_KEY searchLocation (units s))
       = Fulfilled {| ok := true; json := Rejected e |}).
Proof.
  unfold footerNotice. intros Hfooter.
  destruct (search_error_cell API_KEY s net searchLocation)
    as [H | [H | [H | [H | [e [H Hthrown]]]]]];
    cbv zeta in *; rewrite H in Hfooter; try discriminate Hfooter.
  exists e. split; [| exact Hthrown].
  apply andb_prop in Hfooter. apply Hfooter.
Qed.

Lemma footer_notice_needs_thrown_message_witness :
  exists e, str_includes (message_of e) "API key" = true /\
    (complaining WeatherEndpoint (weather_url (Some "k") "Paris" (units initial)) = Rejected e \/
     complaining WeatherEndpoint (weather_url (Some "k") "Paris" (units initial))
       = Fulfilled {| ok := true; json := Rejected e |} \/
     complaining ForecastEndpoint (forecast_url (Some "k") "Paris" (units initial)) = Rejected e \/
     complaining ForecastEndpoint (forecast_url (Some "k") "Paris" (units initial))
       = Fulfilled {| ok := true; json := Rejected e |}).
Proof.
  apply (footer_notice_needs_thrown_message (Some "k") initial complaining "Paris").
  reflexivity.
Defined.

(** ** Favorites, units and undo *)

Lemma includes_eq (l l' : list string) (x y : string) :
  (In x l <-> In y l') -> includes l x = includes l' y.
Proof.
  intros H. apply eq_true_iff_eq. now rewrite !includes_true_iff.
Qed.

(** A favorite toggle ends before it returns and makes no request. *)
Lemma run_toggleFavorite (s : State) (net : Network) (loc : string) :
  run net (toggleFavorite s loc) s =
  {| final := perform (toggleFavorite s loc) s; requests := []; result := Fulfilled tt |}.
Proof.
  unfold perform, toggleFavorite.
  destruct (includes (favorites s) loc); reflexivity.
Qed.

Lemma perform_toggleFavorite (s : State) (loc : string) :
  perform (toggleFavorite s loc) s =
  update (setFavorites (favorites (perform (toggleFavorite s loc) s))) s.
Proof.
  unfold perform, toggleFavorite.
  destruct (includes (favorites s) loc); destruct s; reflexivity.
Qed.

Lemma star_toggled (s : State) (loc : string) :
  starMarker (perform (toggleFavorite s loc) s) loc = negb (starMarker s loc).
Proof.
  unfold starMarker. rewrite favorites_toggleFavorite.
  destruct (includes (favorites s) loc) eqn:Hin; simpl.
  - apply includes_false_iff. rewrite In_unstar. tauto.
  - apply includes_true_iff, in_app_iff. right. now left.
Qed.

(** X11.  A favorite toggle flips the star of its place, for every
    favorites list (with repeats, every copy goes), leaves the star of
    every other place as it was, makes no request and changes no cell
    but [favorites]. *)
Theorem toggleFavorite_flips_star (s : State) (net : Network) (loc : string) :
  let o := run net (toggleFavorite s loc) s in
  requests o = [] /\
  starMarker (final o) loc = negb (starMarker s loc) /\
  (forall x, x <> loc -> starMarker (final o) x = starMarker s x) /\
  final o = update (setFavorites (favorites (final o))) s.
Proof.
  intros o. subst o. rewrite run_toggleFavorite. cbn [final requests].
  split; [reflexivity | split; [apply star_toggled | split]].
  - intros x Hx. unfold starMarker. rewrite favorites_toggleFavorite.
    apply includes_eq.
    destruct (includes (favorites s) loc).
    + rewrite In_unstar. tauto.
    + rewrite in_app_iff. simpl. intuition congruence.
  - apply perform_toggleFavorite.
Qed.

Lemma toggleFavorite_flips_star_witness :
  starMarker (final (run sunny (toggleFavorite (listing ["Oslo"] ["Rome"; "Oslo"; "Rome"]) "Rome")
                       (listing ["Oslo"] ["Rome"; "Oslo"; "Rome"]))) "Oslo" = true.
Proof.
  apply (toggleFavorite_flips_star (listing ["Oslo"] ["Rome"; "Oslo"; "Rome"]) sunny "Rome").
  discriminate.
Defined.

Lemma other_unit_differs (u : string) : other_unit u <> u.
Proof.
  unfold other_unit.
  destruct (String.eqb_spec u "metric") as [-> | Hne]; [discriminate | congruence].
Qed.

Lemma other_theme_differs (t : string) :
  (if String.eqb t "light" then "dark" else "light") <> t.
Proof.
  destruct (String.eqb_spec t "light") as [-> | Hne]; [discriminate | congruence].
Qed.

(** X12.  After a unit toggle the unit is "metric" or "imperial"
    whatever it was before, and it differs from the unit before; two
    toggles give back the unit they started from exactly when that unit
    was one of the two. *)
Theorem toggleUnits_range (s : State) :
  let s' := perform (toggleUnits s) s in
  let s'' := perform (toggleUnits s') s' in
  unit_system (units s') /\
  units s' <> units s /\
  (units s'' = units s <-> unit_system (units s)).
Proof.
  destruct s as [lo we fo un th ld er re fa sh la de]. unfold unit_system. simpl.
  destruct (String.eqb_spec un "metric") as [-> | Hne]; simpl.
  - repeat split; try tauto; discriminate.
  - split; [now left | split; [congruence | split]].
    + intros <-. now right.
    + intros [H | H]; congruence.
Qed.

(** X13.  Undo has one slot: after two unit toggles, Undo gives back the
    unit between them and a second Undo does nothing, so the unit before
    the first toggle does not come back. *)
Theorem undo_is_single_slot (s : State) (u : string) :
  let start := update (setUnits u) s in
  let once := perform (toggleUnits start) start in
  let twice := perform (toggleUnits once) once in
  let undone := perform (undoLastAction twice) twice in
  units undone = units once /\
  undoControl undone = false /\
  perform (undoLastAction undone) undone = undone /\
  units undone <> u.
Proof.
  destruct s as [lo we fo un th ld er re fa sh la de]. simpl.
  repeat split. apply other_unit_differs.
Qed.

(** X14.  Undo only reverts units: after a unit toggle followed by a
    theme toggle and a favorite toggle, Undo gives back the unit and
    leaves the new theme and the new favorites in place. *)
Theorem undo_only_reverts_units (s : State) (loc : string) :
  let a := perform (toggleUnits s) s in
  let b := perform (toggleTheme a) a in
  let c := perform (toggleFavorite b loc) b in
  let d := perform (undoLastAction c) c in
  units d = units s /\
  theme d = theme b /\
  theme d <> theme s /\
  favorites d = favorites c /\
  starMarker d loc = negb (starMarker s loc) /\
  undoControl d = false.
Proof.
  cbv zeta.
  set (a := perform (toggleUnits s) s).
  set (b := perform (toggleTheme a) a).
  assert (Hb : b = update (setTheme (if String.eqb (theme s) "light" then "dark" else "light"))
                     (update (setLastAction (Some {| type := "units"; value := units s |}))
                        (update (setUnits (other_unit (units s))) s))).
  { subst b a. destruct s; reflexivity. }
  pose proof (star_toggled b loc) as Hloc.
  pose proof (perform_toggleFavorite b loc) as Hc.
  set (c := perform (toggleFavorite b loc) b) in *.
  assert (Hfav : favorites b = favorites s) by (rewrite Hb; destruct s; reflexivity).
  assert (Hd : perform (undoLastAction c) c
               = update (setLastAction None) (update (setUnits (units s)) c)).
  { rewrite Hc, Hb. destruct s; reflexivity. }
  rewrite Hd.
  assert (Htheme : theme c = theme b) by (rewrite Hc; destruct b; reflexivity).
  repeat split.
  - destruct c; reflexivity.
  - destruct c; simpl in *. exact Htheme.
  - destruct c; simpl in *. rewrite Htheme, Hb. destruct s; simpl.
    apply other_theme_differs.
  - destruct c; reflexivity.
  - unfold starMarker in *. rewrite <- Hfav, <- Hloc. destruct c; reflexivity.
  - destruct c; reflexivity.
Qed.

(** ** What a waiting search can change *)

Lemma AllCalls_bind (A B : Type) (P : SetState -> Prop) (m : Async A) (f : A -> Async B) :
  AllCalls P m -> (forall a, AllCalls P (f a)) -> AllCalls P (bind_async m f).
Proof.
  intros Hm Hf. induction m as [a | e | u k IH | ep url k IH]; simpl in *.
  - apply Hf.
  - exact I.
  - split; [tauto | apply IH; tauto].
  - intros r. apply IH, Hm.
Qed.

Lemma AllCalls_try_catch (A : Type) (P : SetState -> Prop) (body : Async A)
    (h : Thrown -> Async A) :
  AllCalls P body -> (forall e, AllCalls P (h e)) -> AllCalls P (try_catch body h).
Proof.
  intros Hb Hh. induction body as [a | e | u k IH | ep url k IH]; simpl in *.
  - exact I.
  - apply Hh.
  - split; [tauto | apply IH; tauto].
  - intros r. apply IH, Hb.
Qed.

Lemma AllCalls_try_finally (A : Type) (P : SetState -> Prop) (body : Async A)
    (fin : Async unit) :
  AllCalls P body -> AllCalls P fin -> AllCalls P (try_finally body fin).
Proof.
  intros Hb Hf. induction body as [a | e | u k IH | ep url k IH]; simpl in *.
  - apply AllCalls_bind; [exact Hf | intros; exact I].
  - apply AllCalls_bind; [exact Hf | intros; exact I].
  - split; [tauto | apply IH; tauto].
  - intros r. apply IH, Hb.
Qed.

Lemma AllCalls_call (P : SetState -> Prop) (u : SetState) : P u -> AllCalls P (call u).
Proof. intros H. simpl. tauto. Qed.

Lemma AllCalls_fetch (P : SetState -> Prop) (ep : Endpoint) (url : string) :
  AllCalls P (fetch ep url).
Proof. intros [resp | e]; exact I. Qed.

Lemma AllCalls_await (A : Type) (P : SetState -> Prop) (p : Settled A) :
  AllCalls P (await p).
Proof. destruct p; exact I. Qed.

(** [fetchWeather] calls no setter but its five. *)
Lemma AllCalls_fetchWeather (API_KEY : option string) (render : State)
    (searchLocation : string) :
  AllCalls search_call (fetchWeather API_KEY render searchLocation).
Proof.
  unfold fetchWeather.
  destruct (truthy API_KEY); simpl negb; cbv iota.
  2: { apply AllCalls_call. exact I. }
  apply AllCalls_bind; [apply AllCalls_call; exact I | intros _].
  apply AllCalls_bind; [apply AllCalls_call; exact I | intros _].
  apply AllCalls_try_finally; [| apply AllCalls_call; exact I].
  apply AllCalls_try_catch; [| intros e; apply AllCalls_call; exact I].
  apply AllCalls_bind; [apply AllCalls_fetch | intros weatherResponse].
  destruct weatherResponse as [[|] weatherJson]; simpl negb; cbv iota; [| exact I].
  apply AllCalls_bind; [apply AllCalls_await | intros weatherData].
  apply AllCalls_bind; [apply AllCalls_fetch | intros forecastResponse].
  destruct forecastResponse as [[|] forecastJson]; simpl negb; cbv iota; [| exact I].
  apply AllCalls_bind; [apply AllCalls_await | intros forecastData].
  apply AllCalls_bind; [apply AllCalls_call; exact I | intros _].
  apply AllCalls_bind; [apply AllCalls_call; exact I | intros _].
  destruct (includes (recentLocations render) searchLocation);
    simpl negb; cbv iota; [exact I | apply AllCalls_call; exact I].
Qed.

Lemma advance_AllCalls (A : Type) (P : SetState -> Prop) (J : State -> Prop)
    (p : Async A) (s : State) :
  (forall u s, P u -> J s -> J (update u s)) ->
  AllCalls P p -> J s ->
  J (fst (advance p s)) /\ AllCalls P (snd (advance p s)).
Proof.
  intros Hstep. revert s.
  induction p as [a | e | u k IH | ep url k _]; simpl; intros s Hp Hs;
    try (split; assumption).
  destruct Hp as [Hu Hk]. apply IH; [exact Hk | now apply Hstep].
Qed.

(** Every handler but [fetchWeather] ends before it returns. *)
Lemma handler_finishes (API_KEY : option string) (ev : Event) (s : State) :
  (forall searchLocation, ev = Search searchLocation -> truthy API_KEY = false) ->
  snd (advance (handler API_KEY ev s) s) = Return tt.
Proof.
  intros Hkey. destruct ev; simpl; try reflexivity.
  - rewrite (fetchWeather_no_key API_KEY s searchLocation (Hkey _ eq_refl)). reflexivity.
  - unfold toggleFavorite. destruct (includes (favorites s) loc); reflexivity.
  - unfold undoLastAction. destruct (lastAction s) as [a|]; [| reflexivity].
    destruct (String.eqb (type a) "units"); reflexivity.
Qed.

Lemma parked_search_call (API_KEY : option string) (ev : Event) (s : State) :
  AllCalls search_call (snd (advance (handler API_KEY ev s) s)).
Proof.
  destruct ev;
    try (rewrite handler_finishes; [exact I | intros ? Heq; discriminate Heq]).
  simpl. apply (advance_AllCalls unit search_call (fun _ => True)); auto.
  apply AllCalls_fetchWeather.
Qed.

Lemma AllCalls_park (P : SetState -> Prop) (p : Async unit) (waiting : list (Async unit)) :
  AllCalls P p -> Forall (AllCalls P) waiting -> Forall (AllCalls P) (park p waiting).
Proof.
  intros Hp Hw. destruct p; simpl; try assumption. now constructor.
Qed.

(** One step of the page, seen from a property [J] of the state that
    the five setters of [fetchWeather] keep and every handler keeps. *)
Lemma step_view (API_KEY : option string) (J : State -> Prop) (a b : System) :
  (forall u s, search_call u -> J s -> J (update u s)) ->
  (forall ev s, J s -> J (fst (advance (handler API_KEY ev s) s))) ->
  (forall first second, J (view (page_load first second (storage a)))) ->
  step API_KEY a b ->
  J (view a) -> Forall (AllCalls search_call) (inflight a) ->
  J (view b) /\ Forall (AllCalls search_call) (inflight b).
Proof.
  intros Hset Hhandler Hload Hstep Hview Hwait.
  destruct Hstep as [sys ev stored saved s' p' Hadv
                    | sys before after ep url k r saved s' p' Hsplit Hadv
                    | sys first second].
  - pose proof (Hhandler ev (view sys) Hview) as Hs.
    pose proof (parked_search_call API_KEY ev (view sys)) as Hp.
    rewrite Hadv in Hs, Hp. simpl in *.
    split; [exact Hs | now apply AllCalls_park].
  - rewrite Hsplit in Hwait. apply Forall_app in Hwait as [Hbefore Hrest].
    inversion Hrest as [| ? ? Hfetch Hafter]; subst.
    destruct (advance_AllCalls unit search_call J (k r) (view sys) Hset (Hfetch r) Hview)
      as [Hs Hp].
    rewrite Hadv in Hs, Hp. simpl in *.
    split; [exact Hs |]. apply Forall_app. split; [exact Hbefore | now apply AllCalls_park].
  - split; [apply Hload | constructor].
Qed.


(** ** The store over a step *)

(** What a save leaves under each key: the old value or the rendered
    one; the banner flag is not touched. *)
Lemma savePreferences_keys (completed : nat) (render : State) (st : LocalStorage.t) :
  let st' := savePreferences completed render st in
  (LocalStorage.weatherUnits st' = LocalStorage.weatherUnits st \/
   LocalStorage.weatherUnits st' = Some (units render)) /\
  (LocalStorage.weatherTheme st' = LocalStorage.weatherTheme st \/
   LocalStorage.weatherTheme st' = Some (theme render)) /\
  (LocalStorage.weatherFavorites st' = LocalStorage.weatherFavorites st \/
   LocalStorage.weatherFavorites st' = Some (favorites render)) /\
  (LocalStorage.recentLocations st' = LocalStorage.recentLocations st \/
   LocalStorage.recentLocations st' = Some (recentLocations render)) /\
  LocalStorage.hasSeenFeatureInfo st' = LocalStorage.hasSeenFeatureInfo st.
Proof.
  destruct st. destruct completed as [|[|[|[|[|n]]]]]; simpl; tauto.
Qed.

Lemma savePreferences_all (completed : nat) (render : State) (st : LocalStorage.t) :
  4 <= completed ->
  savePreferences completed render st =
  {| LocalStorage.weatherUnits := Some (units render);
     LocalStorage.weatherTheme := Some (theme render);
     LocalStorage.weatherFavorites := Some (favorites render);
     LocalStorage.recentLocations := Some (recentLocations render);
     LocalStorage.hasSeenFeatureInfo := LocalStorage.hasSeenFeatureInfo st |}.
Proof.
  intros Hall. destruct st.
  destruct completed as [|[|[|[|[|n]]]]]; try lia; reflexivity.
Qed.

Lemma rememberFeatureInfo_keys (completed : nat) (st : LocalStorage.t) :
  let st' := rememberFeatureInfo completed st in
  LocalStorage.weatherUnits st' = LocalStorage.weatherUnits st /\
  LocalStorage.weatherTheme st' = LocalStorage.weatherTheme st /\
  LocalStorage.weatherFavorites st' = LocalStorage.weatherFavorites st /\
  LocalStorage.recentLocations st' = LocalStorage.recentLocations st /\
  (LocalStorage.hasSeenFeatureInfo st' = LocalStorage.hasSeenFeatureInfo st \/
   LocalStorage.hasSeenFeatureInfo st' = Some "true").
Proof.
  destruct st. destruct completed as [|[|n]]; simpl; tauto.
Qed.

(** The store after a step: a save of the new state over the old store,
    over the old store with the banner flag written, or over a first
    save of the initial state. *)
Lemma step_storage (API_KEY : option string) (a b : System) :
  step API_KEY a b ->
  exists saved st,
    storage b = savePreferences saved (view b) st /\
    (st = storage a \/
     (exists stored, st = rememberFeatureInfo stored (storage a)) \/
     (exists first, st = savePreferences first initial (storage a))).
Proof.
  intros Hstep.
  destruct Hstep as [sys ev stored saved s' p' Hadv
                    | sys before after ep url k r saved s' p' Hsplit Hadv
                    | sys first second]; simpl.
  - exists saved. eexists. split; [reflexivity |].
    destruct ev; simpl; try (now left). right. left. now exists stored.
  - exists saved. eexists. split; [reflexivity | now left].
  - exists second. eexists. split; [reflexivity |]. right. right. now exists first.
Qed.

(** ** Units, theme and the undo slot in every reachable state *)

Lemma search_call_Prefs (u : SetState) (s : State) :
  search_call u -> Prefs s -> Prefs (update u s).
Proof. destruct s, u; simpl; tauto. Qed.

Lemma unit_system_other (u : string) : unit_system (other_unit u).
Proof.
  unfold unit_system, other_unit. destruct (String.eqb u "metric"); tauto.
Qed.

Lemma other_unit_twice (u : string) : unit_system u -> other_unit (other_unit u) = u.
Proof. intros [-> | ->]; reflexivity. Qed.

Lemma handler_Prefs (API_KEY : option string) (ev : Event) (s : State) :
  Prefs s -> Prefs (fst (advance (handler API_KEY ev s) s)).
Proof.
  intros H. destruct ev; simpl.
  - apply (advance_AllCalls unit search_call Prefs); auto using search_call_Prefs.
    apply AllCalls_fetchWeather.
  - unfold toggleFavorite.
    destruct (includes (favorites s) loc); destruct s; exact H.
  - destruct s as [lo we fo un th ld er re fa sh la de].
    destruct H as (Hu & Ht & _). simpl in *.
    split; [apply unit_system_other | split; [exact Ht |]].
    split; [reflexivity | symmetry; now apply other_unit_twice].
  - unfold undoLastAction. destruct s as [lo we fo un th ld er re fa sh [a|] de];
      [| exact H].
    destruct H as (Hu & Ht & Htype & Hvalue). simpl in *.
    rewrite Htype. simpl. rewrite Hvalue.
    split; [apply unit_system_other | split; [exact Ht | exact I]].
  - destruct s as [lo we fo un th ld er re fa sh la de].
    destruct H as (Hu & Ht & Hla). simpl in *.
    split; [exact Hu | split; [| exact Hla]].
    unfold color_scheme. destruct (String.eqb th "light"); tauto.
  - destruct s; exact H.
  - destruct s; exact H.
  - destruct s; exact H.
Qed.

Lemma stored_prefs_save (completed : nat) (render : State) (st : LocalStorage.t) :
  Prefs render -> stored_prefs st -> stored_prefs (savePreferences completed render st).
Proof.
  intros (Hu & Ht & _) [Hsu Hst].
  destruct (savePreferences_keys completed render st) as (Ku & Kt & _).
  cbv zeta in *. unfold stored_prefs.
  destruct Ku as [-> | ->], Kt as [-> | ->]; tauto.
Qed.

Lemma Prefs_initial : Prefs initial.
Proof. unfold Prefs, unit_system, color_scheme. simpl. tauto. Qed.

Lemma Prefs_load (st : LocalStorage.t) :
  stored_prefs st -> Prefs (fst (advance (loadPreferences st) initial)).
Proof.
  intros [Hu Ht]. unfold loadPreferences, when_truthy.
  destruct st as [[u|] [t|] fa re [h|]]; simpl in *;
    try destruct (truthy_string u); try destruct (truthy_string t);
    try destruct (truthy_string h); simpl;
    unfold Prefs, unit_system, color_scheme in *; simpl; tauto.
Qed.

Lemma PrefInv_page_load (first second : nat) (st : LocalStorage.t) :
  stored_prefs st -> PrefInv (page_load first second st).
Proof.
  intros Hst. pose proof (Prefs_load st Hst) as Hview.
  split; [exact Hview | split; [| constructor]]. simpl.
  apply stored_prefs_save; [exact Hview |].
  apply stored_prefs_save; [apply Prefs_initial | exact Hst].
Qed.

Lemma PrefInv_step (API_KEY : option string) (a b : System) :
  step API_KEY a b -> PrefInv a -> PrefInv b.
Proof.
  intros Hstep (Hview & Hstore & Hwait).
  destruct (step_view API_KEY Prefs a b) as [Hb Hwait']; auto using search_call_Prefs.
  { intros ev s. apply handler_Prefs. }
  { intros first second. now apply PrefInv_page_load. }
  split; [exact Hb | split; [| exact Hwait']].
  destruct (step_storage API_KEY a b Hstep) as (saved & st & -> & Hst).
  apply stored_prefs_save; [exact Hb |].
  destruct Hst as [-> | [[stored ->] | [first ->]]].
  - exact Hstore.
  - destruct (rememberFeatureInfo_keys stored (storage a)) as (Ku & Kt & _).
    cbv zeta in *. unfold stored_prefs. now rewrite Ku, Kt.
  - apply stored_prefs_save; [apply Prefs_initial | exact Hstore].
Qed.

Lemma PrefInv_Reachable (API_KEY : option string) (sys : System) :
  Reachable API_KEY sys -> PrefInv sys.
Proof.
  induction 1 as [first second | a b _ IH Hstep].
  - apply PrefInv_page_load. split; exact I.
  - eapply PrefInv_step; eassumption.
Qed.

(** X15.  In every reachable state the unit is "metric" or "imperial"
    and the theme is "light" or "dark"; and whenever the undo button is
    there, pressing it switches to the other unit and takes the button
    away. *)
Theorem reachable_preferences (API_KEY : option string) (sys : System) :
  Reachable API_KEY sys ->
  unit_system (units (view sys)) /\
  color_scheme (theme (view sys)) /\
  (undoControl (view sys) = true ->
   let undone := perform (undoLastAction (view sys)) (view sys) in
   units undone = other_unit (units (view sys)) /\
   units undone <> units (view sys) /\
   undoControl undone = false).
Proof.
  intros Hreach. destruct (PrefInv_Reachable API_KEY sys Hreach) as ((Hu & Ht & Hla) & _).
  split; [exact Hu | split; [exact Ht |]].
  destruct (view sys) as [lo we fo un th ld er re fa sh [a|] de]; simpl in *;
    [intros _ | discriminate].
  destruct Hla as [Htype Hvalue]. unfold perform, undoLastAction. simpl.
  rewrite Htype. simpl. rewrite Hvalue.
  repeat split. apply other_unit_differs.
Qed.

Lemma reachable_preferences_witness :
  units (view unit_toggled) = "imperial" /\
  unit_system (units (view unit_toggled)) /\
  undoControl (view unit_toggled) = true /\
  units (perform (undoLastAction (view unit_toggled)) (view unit_toggled)) = "metric".
Proof.
  assert (Hreach : Reachable None unit_toggled).
  { apply (@reach_step None first_visit unit_toggled).
    - apply reach_first_visit.
    - exact (@step_event None first_visit ToggleUnits 0 4
               (view unit_toggled) (Return tt) eq_refl). }
  destruct (reachable_preferences None unit_toggled Hreach) as (Hu & _ & Hundo).
  split; [reflexivity | split; [exact Hu | split; [reflexivity |]]].
  apply (Hundo eq_refl).
Defined.

(** ** Loading the page *)

(** The first state of a page, from the store it finds. *)
Lemma page_load_view (first second : nat) (st : LocalStorage.t) :
  view (page_load first second st) =
  {| location := "";
     weather := None;
     forecast := [];
     units := restored (LocalStorage.weatherUnits st) "metric";
     theme := restored (LocalStorage.weatherTheme st) "light";
     loading := false;
     error := None;
     recentLocations := parse_or_empty (LocalStorage.recentLocations st);
     favorites := parse_or_empty (LocalStorage.weatherFavorites st);
     showFeatureInfo := negb (truthy (LocalStorage.hasSeenFeatureInfo st));
     lastAction := None;
     showDetails := false |}.
Proof.
  unfold page_load, loadPreferences, when_truthy, restored.
  destruct st as [[u|] [t|] fa re [h|]]; simpl;
    try destruct (truthy_string u); try destruct (truthy_string t);
    try destruct (truthy_string h); reflexivity.
Qed.

(** X16.  Saving and loading is a round trip: a page loaded from a store
    into which a state was saved has that state's favorites and recent
    locations, and its unit and theme (an empty string falls back to
    the default); when its own saves go through, the store holds these
    four values again and the banner flag is as it was. *)
Theorem preferences_round_trip (s : State) (st : LocalStorage.t) (first second : nat) :
  4 <= second ->
  let sys := page_load first second (savePreferences 4 s st) in
  favorites (view sys) = favorites s /\
  recentLocations (view sys) = recentLocations s /\
  units (view sys) = (if truthy_string (units s) then units s else "metric") /\
  theme (view sys) = (if truthy_string (theme s) then theme s else "light") /\
  storage sys = savePreferences 4 (view sys) st.
Proof.
  intros Hsecond sys. subst sys.
  rewrite (savePreferences_all 4 s st (le_n 4)).
  split; [| split; [| split; [| split]]];
    try (rewrite page_load_view; reflexivity).
  unfold page_load. cbn [view storage].
  rewrite (savePreferences_all second _ _ Hsecond), (savePreferences_all 4 _ st (le_n 4)).
  f_equal.
  destruct (savePreferences_keys first initial
              {| LocalStorage.weatherUnits := Some (units s);
                 LocalStorage.weatherTheme := Some (theme s);
                 LocalStorage.weatherFavorites := Some (favorites s);
                 LocalStorage.recentLocations := Some (recentLocations s);
                 LocalStorage.hasSeenFeatureInfo := LocalStorage.hasSeenFeatureInfo st |})
    as (_ & _ & _ & _ & Hflag).
  exact Hflag.
Qed.

Lemma preferences_round_trip_witness :
  let s := update (setTheme "dark") (update (setUnits "imperial") (listing ["Oslo"; "Rome"] ["Rome"])) in
  let sys := page_load 4 4 (savePreferences 4 s LocalStorage.empty) in
  favorites (view sys) = ["Rome"] /\
  recentLocations (view sys) = ["Oslo"; "Rome"] /\
  units (view sys) = "imperial" /\
  theme (view sys) = "dark" /\
  storage sys = savePreferences 4 (view sys) LocalStorage.empty.
Proof.
  cbv zeta.
  apply (preferences_round_trip
           (update (setTheme "dark") (update (setUnits "imperial") (listing ["Oslo"; "Rome"] ["Rome"])))
           LocalStorage.empty 4 4).
  lia.
Defined.

(** X17.  A reload forgets the session: whatever the store holds and
    whether or not the saves go through, the loaded page has no weather,
    no forecast, no error, nothing loading or waiting, an empty search
    box and no undo button. *)
Theorem reload_forgets_session (st : LocalStorage.t) (first second : nat) :
  let sys := page_load first second st in
  weather (view sys) = None /\
  forecast (view sys) = [] /\
  error (view sys) = None /\
  loading (view sys) = false /\
  location (view sys) = "" /\
  lastAction (view sys) = None /\
  undoControl (view sys) = false /\
  inflight sys = [].
Proof.
  cbv zeta. unfold undoControl. rewrite page_load_view. repeat split.
Qed.

(** ** A page without a credential *)

Lemma handler_idle (API_KEY : option string) (ev : Event) (s : State) :
  truthy API_KEY = false ->
  let s' := fst (advance (handler API_KEY ev s) s) in
  weather s' = weather s /\ forecast s' = forecast s /\
  recentLocations s' = recentLocations s.
Proof.
  intros Hkey. destruct ev; simpl.
  - rewrite (fetchWeather_no_key API_KEY s searchLocation Hkey). destruct s; repeat split.
  - unfold toggleFavorite. destruct (includes (favorites s) loc); destruct s; repeat split.
  - destruct s; repeat split.
  - unfold undoLastAction. destruct (lastAction s) as [a|]; [| repeat split].
    destruct (String.eqb (type a) "units"); destruct s; repeat split.
  - destruct s; repeat split.
  - destruct s; repeat split.
  - destruct s; repeat split.
  - destruct s; repeat split.
Qed.

Lemma Idle_save (saved : nat) (s : State) (st : LocalStorage.t) :
  recentLocations s = [] ->
  parse_or_empty (LocalStorage.recentLocations st) = [] ->
  parse_or_empty (LocalStorage.recentLocations (savePreferences saved s st)) = [].
Proof.
  intros Hs Hst.
  destruct (savePreferences_keys saved s st) as (_ & _ & _ & [-> | ->] & _);
    [exact Hst | exact Hs].
Qed.

Lemma Idle_page_load (first second : nat) (st : LocalStorage.t) :
  parse_or_empty (LocalStorage.recentLocations st) = [] ->
  Idle (page_load first second st).
Proof.
  intros Hst. unfold Idle. rewrite page_load_view. cbn [weather forecast recentLocations].
  repeat split; try exact Hst.
  unfold page_load. cbn [storage].
  apply Idle_save.
  - pose proof (page_load_view first second st) as Hview. unfold page_load in Hview.
    cbn [view] in Hview. rewrite Hview. exact Hst.
  - now apply Idle_save.
Qed.

(** X18.  On a page without an API credential nothing ever happens on
    the network side: in every reachable state no call waits for a
    response, no weather or forecast is held, and Recent Locations is
    empty. *)
Theorem no_credential_no_weather (API_KEY : option string) (sys : System) :
  truthy API_KEY = false ->
  Reachable API_KEY sys ->
  inflight sys = [] /\
  weather (view sys) = None /\
  forecast (view sys) = [] /\
  recentLocations (view sys) = [].
Proof.
  intros Hkey Hreach.
  assert (Hidle : Idle sys).
  { induction Hreach as [first second | a b _ IH Hstep].
    - now apply Idle_page_load.
    - destruct IH as (Hwait & Hw & Hf & Hre & Hst).
      destruct Hstep as [sys ev stored saved s' p' Hadv
                        | sys before after ep url k r saved s' p' Hsplit Hadv
                        | sys first second].
      + pose proof (handler_finishes API_KEY ev (view sys) (fun _ _ => Hkey)) as Hp.
        destruct (handler_idle API_KEY ev (view sys) Hkey) as (Hw' & Hf' & Hre').
        rewrite Hadv in Hp, Hw', Hf', Hre'. simpl in *. subst p'.
        unfold Idle. simpl.
        split; [exact Hwait | split; [congruence | split; [congruence | split; [congruence |]]]].
        apply Idle_save; [congruence |].
        destruct ev; simpl; try exact Hst.
        destruct (rememberFeatureInfo_keys stored (storage sys)) as (_ & _ & _ & -> & _).
        exact Hst.
      + rewrite Hwait in Hsplit. destruct before; discriminate Hsplit.
      + now apply Idle_page_load. }
  destruct Hidle as (Hwait & Hw & Hf & Hre & _). tauto.
Qed.

Lemma no_credential_no_weather_witness :
  inflight (submit None first_visit "Paris") = [] /\
  weather (view (submit None first_visit "Paris")) = None.
Proof.
  assert (Hreach : Reachable None (submit None first_visit "Paris")).
  { apply (@reach_step None first_visit); [apply reach_first_visit | apply step_submit]. }
  destruct (no_credential_no_weather None _ eq_refl Hreach) as (Hwait & Hw & _).
  split; [exact Hwait | exact Hw].
Defined.

(** ** The banner *)






(** ** The chart of any forecast *)

(** X20.  For a forecast of any length, the chart data has one point for
    every started group of eight forecast points, that is
    (length + 7) / 8 points, and its k-th point is made from forecast
    point 8k. *)
Theorem chart_every_eighth_point (toLocaleDateString : float -> string)
    (f : list ForecastData.t) :
  length (chartData toLocaleDateString f) = (length f + 7) / 8 /\
  forall k, nth_error (chartData toLocaleDateString f) k =
            option_map (chart_point toLocaleDateString) (nth_error f (8 * k)).
Proof.
  split; [| apply nth_error_chartData].
  pose proof (nth_error_chartData toLocaleDateString f) as Hnth.
  set (m := length (chartData toLocaleDateString f)).
  assert (Hupper : length f <= 8 * m).
  { apply nth_error_None.
    assert (Hnone : nth_error (chartData toLocaleDateString f) m = None)
      by (apply nth_error_None; subst m; lia).
    rewrite Hnth in Hnone. destruct (nth_error f (8 * m)); [discriminate | reflexivity]. }
  assert (Hlower : m = 0 \/ 8 * (m - 1) < length f).
  { destruct m as [|m'] eqn:Hm; [now left | right].
    apply nth_error_Some.
    assert (Hsome : nth_error (chartData toLocaleDateString f) m' <> None)
      by (apply nth_error_Some; fold m; lia).
    rewrite Hnth in Hsome. replace (S m' - 1) with m' by lia.
    destruct (nth_error f (8 * m')); [discriminate | contradiction]. }
  apply Nat.div_unique with (r := length f + 7 - 8 * m); lia.
Qed.

(** X21.  No chart is rendered for an empty forecast; for any other
    forecast the chart is rendered and its first point is made from the
    first forecast point. *)
Theorem chart_rendered_when_forecast (toLocaleDateString : float -> string) (s : State) :
  (forecast s = [] -> renderForecastChart toLocaleDateString s = None) /\
  (forall item rest, forecast s = item :: rest ->
     exists points,
       renderForecastChart toLocaleDateString s
         = Some (chart_point toLocaleDateString item :: points)).
Proof.
  unfold renderForecastChart. split.
  - intros ->. reflexivity.
  - intros item rest ->. simpl. eexists. reflexivity.
Qed.

Lemma chart_rendered_when_forecast_witness :
  renderForecastChart day_label initial = None /\
  exists points,
    renderForecastChart day_label (update (setForecast five_days) initial)
      = Some ({| ChartData.date := "11/14/2023"; ChartData.temp := 10 |} :: points).
Proof.
  split.
  - apply (chart_rendered_when_forecast day_label initial). reflexivity.
  - exact (proj2 (chart_rendered_when_forecast day_label
                    (update (setForecast five_days) initial))
             {| ForecastData.dt := 1700000000;
                ForecastData.main := {| ForecastData.temp := 10 |} |}
             (points 39 1700010800 10.25) eq_refl).
Defined.

(** ** The search form *)

Lemma search_first_request (API_KEY : option string) (s : State) (net : Network)
    (searchLocation : string) :
  truthy API_KEY = true ->
  exists rest, requests (run net (fetchWeather API_KEY s searchLocation) s)
               = weather_url API_KEY searchLocation (units s) :: rest.
Proof.
  intros Hkey. unfold fetchWeather. rewrite Hkey. simpl. eexists. reflexivity.
Qed.

(** X22.  Submitting a text that trims to the empty string does nothing
    at all: no request, no change of state, and no error message even
    when the credential is missing.  Any other text is searched as it
    was typed, untrimmed. *)
Theorem submit_blank_or_as_typed (API_KEY : option string) (trim : string -> string)
    (s : State) (net : Network) :
  (truthy_string (trim (location s)) = false ->
   run net (handleSearch API_KEY trim s) s
     = {| final := s; requests := []; result := Fulfilled tt |}) /\
  (truthy_string (trim (location s)) = true ->
   run net (handleSearch API_KEY trim s) s
     = run net (fetchWeather API_KEY s (location s)) s /\
   (truthy API_KEY = true ->
    exists rest, requests (run net (handleSearch API_KEY trim s) s)
                 = weather_url API_KEY (location s) (units s) :: rest)).
Proof.
  unfold handleSearch. split; intros ->; [reflexivity |].
  split; [reflexivity |]. intros Hkey.
  now apply search_first_request.
Qed.

Lemma submit_blank_or_as_typed_witness :
  final (run sunny (handleSearch None trim_spaces (update (setLocation "   ") initial))
           (update (setLocation "   ") initial))
    = update (setLocation "   ") initial /\
  recentLocations
    (final (run sunny (handleSearch (Some "k") trim_spaces (update (setLocation " Paris ") initial))
              (update (setLocation " Paris ") initial)))
    = [" Paris "].
Proof.
  split.
  - pose proof (proj1 (submit_blank_or_as_typed None trim_spaces
                         (update (setLocation "   ") initial) sunny) eq_refl) as H.
    rewrite H. reflexivity.
  - destruct (proj2 (submit_blank_or_as_typed (Some "k") trim_spaces
                       (update (setLocation " Paris ") initial) sunny) eq_refl) as [H _].
    rewrite H. reflexivity.
Defined.

(** ** The stored lists *)

(** X23.  In every reachable state the store, too, holds well-formed
    lists: the recent locations under its key are at most five without
    duplicates and the favorites under theirs have no duplicates, so a
    reload never starts from a malformed list. *)
Theorem stored_lists_well_formed (API_KEY : option string) (sys : System) :
  Reachable API_KEY sys ->
  length (parse_or_empty (LocalStorage.recentLocations (storage sys))) <= 5 /\
  NoDup (parse_or_empty (LocalStorage.recentLocations (storage sys))) /\
  NoDup (parse_or_empty (LocalStorage.weatherFavorites (storage sys))) /\
  forall first second, Inv (view (page_load first second (storage sys))).
Proof.
  intros Hreach.
  destruct (SysInv_Reachable API_KEY sys Hreach) as (_ & [[Hlen Hre] Hfa] & _).
  split; [exact Hlen | split; [exact Hre | split; [exact Hfa |]]].
  intros first second.
  apply (SysInv_page_load first second (storage sys)). now repeat split.
Qed.

Lemma stored_lists_well_formed_witness :
  LocalStorage.weatherFavorites (storage starred) = Some ["Paris"] /\
  NoDup (parse_or_empty (LocalStorage.weatherFavorites (storage starred))).
Proof.
  split; [reflexivity |].
  apply (stored_lists_well_formed (Some "k") starred).
  apply (@reach_step (Some "k") first_visit starred).
  - apply reach_first_visit.
  - exact (@step_event (Some "k") first_visit (ToggleFavorite "Paris") 0 4
             (view starred) (Return tt) eq_refl).
Defined.
